(** * ha-chan-agent: the mention-search-and-report pipeline of [main.py]

    A shallow embedding of the helpers of [src/main.py], of its
    [find-collabs] command and of the agent call of its [ha-chat] command,
    and the properties of the specification checked on it.

    Python values are modelled as follows.
    - [str] is a list of Unicode code points ([N]); [len] counts code points,
      as Python does.
    - [int] is [Z].
    - An exception raised by a call is a value of [exn]; a computation that can
      raise returns an [outcome].
    - The calls to the chat platform ([channel.history], [followup.send], ...)
      are recorded in a trace of [event]s, so that "this channel is never
      scanned" is a statement about the trace. *)

From Stdlib Require Import ZArith NArith Lia Ascii String DecimalString DecimalPos.
From stdpp Require Import base tactics option list strings gmap.

Local Open Scope Z_scope.

#[local] Set Warnings "-clear-no-such-hyp".

(** ** Python strings *)

Definition codepoint := N.
Definition str := list codepoint.

(** An ASCII literal of the source, as a [str]. *)
Definition lit (s : string) : str := map N_of_ascii (list_ascii_of_string s).

(** [len(x)] *)
Definition len {A} (l : list A) : Z := Z.of_nat (length l).

(** [str(n)] and [f"{n}"] for an [int]. *)
Definition str_of_int (n : Z) : str := lit (NilEmpty.string_of_int (Z.to_int n)).

(** [sep.join(parts)] *)
Fixpoint join (sep : str) (parts : list str) : str :=
  match parts with
  | [] => []
  | [x] => x
  | x :: rest => x ++ sep ++ join sep rest
  end.

Definition nl : str := [10%N].

(** [needle in haystack] for two strings. *)
Fixpoint startswith (s pre : str) {struct pre} : bool :=
  match pre with
  | [] => true
  | p :: pre' =>
      match s with
      | [] => false
      | c :: s' => (p =? c)%N && startswith s' pre'
      end
  end.

Fixpoint contains (haystack needle : str) : bool :=
  startswith haystack needle ||
  match haystack with
  | [] => false
  | _ :: rest => contains rest needle
  end.

(** [c.isspace()]: the code points Python treats as whitespace. *)
Definition isspace (c : codepoint) : bool :=
  ((9 <=? c) && (c <=? 13) || (28 <=? c) && (c <=? 32) || (c =? 133) || (c =? 160)
   || (c =? 5760) || (8192 <=? c) && (c <=? 8202) || (c =? 8232) || (c =? 8233)
   || (c =? 8239) || (c =? 8287) || (c =? 12288))%N.

Fixpoint lstrip (s : str) : str :=
  match s with
  | [] => []
  | c :: rest => if isspace c then lstrip rest else s
  end.

Definition rstrip (s : str) : str := rev (lstrip (rev s)).

(** [s.strip()] *)
Definition strip (s : str) : str := rstrip (lstrip s).

(** [s.split(",")]: never empty, one more part than there are commas. *)
Fixpoint split_on (sep : codepoint) (s : str) : list str :=
  match s with
  | [] => [[]]
  | c :: rest =>
      if (c =? sep)%N then [] :: split_on sep rest
      else match split_on sep rest with
           | [] => [[c]]
           | p :: ps => (c :: p) :: ps
           end
  end.

(** Truth value of a list or a string: [if x:] *)
Definition truthy {A} (l : list A) : bool :=
  match l with [] => false | _ :: _ => true end.

(** ** Report formatter: [chunk_lines_into_fields] *)

Definition EMBED_FIELD_LIMIT : Z := 1024.
Definition EMBED_MAX_FIELDS : Z := 25.

Definition field := (str * str)%type.

(** The three locals of the loop: [fields], [buf], [buf_len]. *)
Record chunker := Chunker {
  fields : list field;
  buf : list str;
  buf_len : Z
}.

(** [f"{field_name_prefix} {len(fields)+1}"] *)
Definition field_name (prefix : str) (fs : list field) : str :=
  prefix ++ lit " " ++ str_of_int (len fs + 1).

Definition flush (prefix : str) (fs : list field) (b : list str) : list field :=
  fs ++ [(field_name prefix fs, join nl b)].

(** One iteration of [for line in lines]. *)
Definition chunk_step (prefix : str) (st : chunker) (line0 : str) : chunker :=
  let line := strip line0 in
  if negb (truthy line) then st
  else
    let add_len := len line + (if truthy (buf st) then 1 else 0) in
    if EMBED_FIELD_LIMIT <? buf_len st + add_len then
      {| fields := flush prefix (fields st) (buf st);
         buf := [line];
         buf_len := len line |}
    else
      {| fields := fields st;
         buf := buf st ++ [line];
         buf_len := buf_len st + add_len |}.

Definition chunk_loop (prefix : str) (lines : list str) : chunker :=
  fold_left (chunk_step prefix) lines {| fields := []; buf := []; buf_len := 0 |}.

Definition chunk_lines_into_fields (lines : list str) (field_name_prefix : str)
  : list field :=
  let st := chunk_loop field_name_prefix lines in
  if truthy (buf st) then flush field_name_prefix (fields st) (buf st)
  else fields st.

(** The lines the loop keeps: trimmed, blank ones dropped. *)
Definition kept_lines (lines : list str) : list str :=
  List.filter truthy (map strip lines).

(** ** Unicode digits: [str.isdigit] and [int]

    [p.isdigit()] accepts every character whose Unicode numeric type is Digit
    or Decimal; [int(p)] accepts only the Decimal ones.  The two tables are
    those of Unicode 14.0 (CPython 3.11), as inclusive ranges. *)

Definition digit_ranges : list (N * N) := [
  (48, 57); (178, 179); (185, 185); (1632, 1641); (1776, 1785); (1984, 1993);
   (2406, 2415); (2534, 2543); (2662, 2671); (2790, 2799); (2918, 2927);
   (3046, 3055); (3174, 3183); (3302, 3311); (3430, 3439); (3558, 3567);
   (3664, 3673); (3792, 3801); (3872, 3881); (4160, 4169); (4240, 4249);
   (4969, 4977); (6112, 6121); (6160, 6169); (6470, 6479); (6608, 6618);
   (6784, 6793); (6800, 6809); (6992, 7001); (7088, 7097); (7232, 7241);
   (7248, 7257); (8304, 8304); (8308, 8313); (8320, 8329); (9312, 9320);
   (9332, 9340); (9352, 9360); (9450, 9450); (9461, 9469); (9471, 9471);
   (10102, 10110); (10112, 10120); (10122, 10130); (42528, 42537);
   (43216, 43225); (43264, 43273); (43472, 43481); (43504, 43513);
   (43600, 43609); (44016, 44025); (65296, 65305); (66720, 66729);
   (68160, 68163); (68912, 68921); (69216, 69224); (69714, 69722);
   (69734, 69743); (69872, 69881); (69942, 69951); (70096, 70105);
   (70384, 70393); (70736, 70745); (70864, 70873); (71248, 71257);
   (71360, 71369); (71472, 71481); (71904, 71913); (72016, 72025);
   (72784, 72793); (73040, 73049); (73120, 73129); (92768, 92777);
   (92864, 92873); (93008, 93017); (120782, 120831); (123200, 123209);
   (123632, 123641); (125264, 125273); (127232, 127242); (130032, 130041)
]%N.

Definition decimal_ranges : list (N * N) := [
  (48, 57); (1632, 1641); (1776, 1785); (1984, 1993); (2406, 2415);
   (2534, 2543); (2662, 2671); (2790, 2799); (2918, 2927); (3046, 3055);
   (3174, 3183); (3302, 3311); (3430, 3439); (3558, 3567); (3664, 3673);
   (3792, 3801); (3872, 3881); (4160, 4169); (4240, 4249); (6112, 6121);
   (6160, 6169); (6470, 6479); (6608, 6617); (6784, 6793); (6800, 6809);
   (6992, 7001); (7088, 7097); (7232, 7241); (7248, 7257); (42528, 42537);
   (43216, 43225); (43264, 43273); (43472, 43481); (43504, 43513);
   (43600, 43609); (44016, 44025); (65296, 65305); (66720, 66729);
   (68912, 68921); (69734, 69743); (69872, 69881); (69942, 69951);
   (70096, 70105); (70384, 70393); (70736, 70745); (70864, 70873);
   (71248, 71257); (71360, 71369); (71472, 71481); (71904, 71913);
   (72016, 72025); (72784, 72793); (73040, 73049); (73120, 73129);
   (92768, 92777); (92864, 92873); (93008, 93017); (120782, 120831);
   (123200, 123209); (123632, 123641); (125264, 125273); (130032, 130041)
]%N.

Definition in_range (c : codepoint) (r : N * N) : bool :=
  ((fst r <=? c) && (c <=? snd r))%N.

Definition isdigit_cp (c : codepoint) : bool := existsb (in_range c) digit_ranges.

(** The decimal value of a character, when it has one: every run of decimal
    digits starts at a zero and counts up. *)
Definition decimal_cp (c : codepoint) : option Z :=
  match find (in_range c) decimal_ranges with
  | Some (lo, _) => Some (Z.of_N ((c - lo) mod 10))
  | None => None
  end.

(** [p.isdigit()] *)
Definition isdigit (p : str) : bool := truthy p && forallb isdigit_cp p.

Fixpoint decimal_digits (p : str) (acc : Z) : option Z :=
  match p with
  | [] => Some acc
  | c :: rest =>
      match decimal_cp c with
      | Some d => decimal_digits rest (10 * acc + d)
      | None => None
      end
  end.

(** [sys.get_int_max_str_digits()], the default. *)
Definition int_max_str_digits : Z := 4300.

(** [int(p)] for a [p] made of digits ([p.isdigit()] holds where the source
    calls it, so sign, underscores and surrounding blanks do not arise);
    [None] is [ValueError]. *)
Definition int_of_str (p : str) : option Z :=
  if int_max_str_digits <? len p then None else decimal_digits p 0.

(** ** Exceptions and effects *)

Inductive exn :=
  | Forbidden            (* discord.Forbidden, a subclass of HTTPException *)
  | NotFound             (* discord.NotFound, a subclass of HTTPException *)
  | DiscordServerError   (* a subclass of HTTPException *)
  | HTTPException        (* discord.HTTPException itself *)
  | ValueError
  | OverflowError
  | UnicodeEncodeError
  | OtherException       (* any other subclass of Exception *)
  | NonException.        (* BaseException only: CancelledError, KeyboardInterrupt *)

(** [isinstance(e, discord.Forbidden)] *)
Definition is_Forbidden (e : exn) : bool :=
  match e with Forbidden => true | _ => false end.

(** [isinstance(e, discord.HTTPException)] *)
Definition is_HTTPException (e : exn) : bool :=
  match e with
  | Forbidden | NotFound | DiscordServerError | HTTPException => true
  | _ => false
  end.

(** [isinstance(e, Exception)] *)
Definition is_Exception (e : exn) : bool :=
  match e with NonException => false | _ => true end.

Inductive outcome (A : Type) :=
  | Ok (a : A)
  | Raise (e : exn).
Arguments Ok {A} a.
Arguments Raise {A} e.

Definition datetime := Z.

(** The keyword arguments built for [history]: [limit] always, [after] when
    a lower bound is given. *)
Record kwargs := Kwargs {
  kw_limit : Z;
  kw_after : option datetime
}.

Record User := { user_id : Z }.

Record Message := {
  msg_id : Z;
  mentions : list User;
  content : str;
  jump_url : str
}.

(** What iterating [history] does: it yields messages, then either
    stops or raises. *)
Inductive history_iter :=
  | HStop
  | HYield (m : Message) (rest : history_iter)
  | HRaise (e : exn).

Record Thread := {
  th_id : Z;
  locked : bool;
  th_history : kwargs -> history_iter
}.

Record TextChannel := {
  ch_id : Z;
  ch_history : kwargs -> history_iter;
  threads : list Thread
}.

Record CategoryChannel := {
  cat_id : Z;
  cat_name : str;
  text_channels : list TextChannel
}.

(** What [guild.get_channel] can return besides [None]. *)
Inductive guild_channel :=
  | GCategory (c : CategoryChannel)
  | GText (c : TextChannel)
  | GOther (id : Z).

Record Guild := {
  get_channel : Z -> option guild_channel;
  categories : list CategoryChannel
}.

Record File := { fp : list N; filename : str }.

Record Embed := {
  title : str;
  description : str;
  embed_fields : list (str * str * bool)   (* name, value, inline *)
}.

(** What the handler does to the outside, in order. *)
Inductive event :=
  | EvDefer (thinking ephemeral : bool)
  | EvChannelHistory (ch : Z) (kw : kwargs)
  | EvThreadHistory (th : Z) (kw : kwargs)
  | EvSendText (text : str) (ephemeral : bool)
  | EvSendEmbed (e : Embed) (file : option File) (ephemeral : bool).

(** A computation that records events and returns or raises. *)
Definition M (A : Type) : Type := (list event * outcome A)%type.

Definition ret {A} (a : A) : M A := ([], Ok a).
Definition raise {A} (e : exn) : M A := ([], Raise e).
Definition emit (ev : event) : M unit := ([ev], Ok tt).
Definition bind {A B} (m : M A) (k : A -> M B) : M B :=
  match m with
  | (t, Ok a) => let '(t', r) := k a in (t ++ t', r)
  | (t, Raise e) => (t, Raise e)
  end.

Notation "'let*' x ':=' m 'in' k" := (bind m (fun x => k))
  (at level 10, x pattern, m at level 100, k at level 200).

(** ** History scanner *)

(** [user in msg.mentions]: users compare by id. *)
Definition user_in (u : User) (us : list User) : bool :=
  existsb (fun v => user_id v =? user_id u) us.

(** [f"<@{user.id}>"] and [f"<@!{user.id}>"] *)
Definition mention_plain (u : User) : str := lit "<@" ++ str_of_int (user_id u) ++ lit ">".
Definition mention_nick (u : User) : str := lit "<@!" ++ str_of_int (user_id u) ++ lit ">".

(** The [if]/[elif] of the per-channel loop. *)
Definition channel_counts (u : User) (msg : Message) : bool :=
  if user_in u (mentions msg) then true
  else if contains (content msg) (mention_plain u) || contains (content msg) (mention_nick u)
       then true
       else false.

(** The condition of the per-thread loop. *)
Definition thread_counts (u : User) (msg : Message) : bool :=
  user_in u (mentions msg) || contains (content msg) (mention_plain u)
  || contains (content msg) (mention_nick u).

(** [async for msg in it: if counts(msg): hits.append(msg)]; the second
    component is the exception that ended the loop, if one did. *)
Fixpoint collect_hits (counts : Message -> bool) (it : history_iter)
    (hits : list Message) : list Message * option exn :=
  match it with
  | HStop => (hits, None)
  | HYield msg rest =>
      collect_hits counts rest (if counts msg then hits ++ [msg] else hits)
  | HRaise e => (hits, Some e)
  end.

Definition history_kwargs (after_dt : option datetime) (limit : Z) : kwargs :=
  {| kw_limit := limit; kw_after := after_dt |}.

Definition _search_channel_for_mentions (channel : TextChannel) (user : User)
    (after_dt : option datetime) (per_channel_limit : Z) : M (list Message) :=
  let kw := history_kwargs after_dt per_channel_limit in
  let* _ := emit (EvChannelHistory (ch_id channel) kw) in
  match collect_hits (channel_counts user) (ch_history channel kw) [] with
  | (hits, None) => ret hits
  | (hits, Some e) =>
      if is_Forbidden e then ret hits
      else if is_HTTPException e then ret hits
      else raise e
  end.

(** [for th in channel.threads] with [results] so far. *)
Fixpoint threads_loop (user : User) (after_dt : option datetime)
    (per_thread_limit : Z) (ths : list Thread)
    (results : list (Thread * list Message)) : M (list (Thread * list Message)) :=
  match ths with
  | [] => ret results
  | th :: rest =>
      if locked th then threads_loop user after_dt per_thread_limit rest results
      else
        let kw := history_kwargs after_dt per_thread_limit in
        let* _ := emit (EvThreadHistory (th_id th) kw) in
        match collect_hits (thread_counts user) (th_history th kw) [] with
        | (th_hits, None) =>
            threads_loop user after_dt per_thread_limit rest
              (if truthy th_hits then results ++ [(th, th_hits)] else results)
        | (_, Some e) =>
            if is_Forbidden e || is_HTTPException e
            then threads_loop user after_dt per_thread_limit rest results
            else raise e
        end
  end.

Definition _search_active_threads_for_mentions (channel : TextChannel) (user : User)
    (after_dt : option datetime) (per_thread_limit : Z)
  : M (list (Thread * list Message)) :=
  threads_loop user after_dt per_thread_limit (threads channel) [].

(** ** Category resolver: [_parse_category_spec] *)

(** [[p.strip() for p in spec.split(",") if p.strip()]] *)
Definition spec_parts (spec : str) : list str :=
  map strip (List.filter (fun p => truthy (strip p)) (split_on 44%N spec)).

(** The locals [seen] and [out]. *)
Definition resolver_state : Type := gset Z * list CategoryChannel.

(** [seen.add(ch.id); out.append(ch)] *)
Definition remember (ch : CategoryChannel) (st : resolver_state) : resolver_state :=
  ({[cat_id ch]} ∪ st.1, st.2 ++ [ch]).

(** First pass: IDs. *)
Fixpoint id_pass (guild : Guild) (parts : list str) (st : resolver_state)
  : outcome resolver_state :=
  match parts with
  | [] => Ok st
  | p :: rest =>
      if isdigit p then
        match int_of_str p with
        | None => Raise ValueError
        | Some n =>
            match get_channel guild n with
            | Some (GCategory ch) =>
                if negb (bool_decide (cat_id ch ∈ st.1))
                then id_pass guild rest (remember ch st)
                else id_pass guild rest st
            | _ => id_pass guild rest st
            end
        end
      else id_pass guild rest st
  end.

Section Resolver.

(** [str.lower], Unicode's full lower-casing, is taken as given. *)
Variable lower : str -> str.

(** [for cat in guild.categories] for one name token. *)
Definition name_step (p : str) (st : resolver_state) (cat : CategoryChannel)
  : resolver_state :=
  if bool_decide (lower (cat_name cat) = lower p)
     && negb (bool_decide (cat_id cat ∈ st.1))
  then remember cat st
  else st.

(** Second pass: names. *)
Fixpoint name_pass (guild : Guild) (parts : list str) (st : resolver_state)
  : resolver_state :=
  match parts with
  | [] => st
  | p :: rest =>
      if isdigit p then name_pass guild rest st
      else name_pass guild rest (fold_left (name_step p) (categories guild) st)
  end.

Definition _parse_category_spec (guild : Guild) (spec : str)
  : outcome (list CategoryChannel) :=
  if negb (truthy spec) then Ok []
  else
    let parts := spec_parts spec in
    match id_pass guild parts (∅, []) with
    | Raise e => Raise e
    | Ok st => Ok (name_pass guild parts st).2
    end.

(** *** The resolver as the specification words it *)

(** Keep the first occurrence of every category identifier. *)
Fixpoint dedup_by_id (seen : gset Z) (cs : list CategoryChannel)
  : list CategoryChannel :=
  match cs with
  | [] => []
  | c :: rest =>
      if bool_decide (cat_id c ∈ seen) then dedup_by_id seen rest
      else c :: dedup_by_id ({[cat_id c]} ∪ seen) rest
  end.

(** The category a numeric token names, if any. *)
Definition id_match (guild : Guild) (p : str) : list CategoryChannel :=
  match int_of_str p with
  | Some n =>
      match get_channel guild n with
      | Some (GCategory ch) => [ch]
      | _ => []
      end
  | None => []
  end.

(** The categories a name token names, in the guild's order. *)
Definition name_match (guild : Guild) (p : str) : list CategoryChannel :=
  List.filter (fun cat => bool_decide (lower (cat_name cat) = lower p))
    (categories guild).

Definition numeric_tokens (parts : list str) : list str := List.filter isdigit parts.
Definition name_tokens (parts : list str) : list str :=
  List.filter (fun p => negb (isdigit p)) parts.

Definition resolve_spec (guild : Guild) (spec : str) : list CategoryChannel :=
  let parts := spec_parts spec in
  dedup_by_id ∅
    (concat (map (id_match guild) (numeric_tokens parts))
     ++ concat (map (name_match guild) (name_tokens parts))).

End Resolver.

(** ** UTF-8 *)

(** [chr(c).encode("utf-8")]; [None] is [UnicodeEncodeError] (a surrogate). *)
Definition utf8_encode_cp (c : codepoint) : option (list N) :=
  (if c <? 128 then Some [c]
   else if c <? 2048 then Some [192 + c / 64; 128 + c mod 64]
   else if c <? 65536 then
     if (55296 <=? c) && (c <=? 57343) then None
     else Some [224 + c / 4096; 128 + (c / 64) mod 64; 128 + c mod 64]
   else if c <? 1114112 then
     Some [240 + c / 262144; 128 + (c / 4096) mod 64; 128 + (c / 64) mod 64;
           128 + c mod 64]
   else None)%N.

(** [s.encode("utf-8")] *)
Fixpoint utf8_encode (s : str) : option (list N) :=
  match s with
  | [] => Some []
  | c :: rest =>
      match utf8_encode_cp c, utf8_encode rest with
      | Some bs, Some bs' => Some (bs ++ bs')
      | _, _ => None
      end
  end.

(** A continuation byte, [10xxxxxx]. *)
Definition is_cont (b : N) : bool := ((128 <=? b) && (b <? 192))%N.

(** [bs.decode("utf-8")], the strict decoder: overlong forms, surrogates and
    values above U+10FFFF are errors ([None]). *)
Fixpoint utf8_decode (bs : list N) : option str :=
  match bs with
  | [] => Some []
  | b1 :: r1 =>
      if (b1 <? 128)%N then cons b1 <$> utf8_decode r1
      else if (b1 <? 194)%N then None
      else if (b1 <? 224)%N then
        match r1 with
        | b2 :: r2 =>
            if is_cont b2
            then cons ((b1 - 192) * 64 + (b2 - 128))%N <$> utf8_decode r2
            else None
        | _ => None
        end
      else if (b1 <? 240)%N then
        match r1 with
        | b2 :: b3 :: r3 =>
            let c := ((b1 - 224) * 4096 + (b2 - 128) * 64 + (b3 - 128))%N in
            if is_cont b2 && is_cont b3 && (2048 <=? c)%N
               && negb ((55296 <=? c) && (c <=? 57343))%N
            then cons c <$> utf8_decode r3
            else None
        | _ => None
        end
      else if (b1 <? 245)%N then
        match r1 with
        | b2 :: b3 :: b4 :: r4 =>
            let c := ((b1 - 240) * 262144 + (b2 - 128) * 4096
                      + (b3 - 128) * 64 + (b4 - 128))%N in
            if is_cont b2 && is_cont b3 && is_cont b4
               && (65536 <=? c)%N && (c <? 1114112)%N
            then cons c <$> utf8_decode r4
            else None
        | _ => None
        end
      else None
  end.

(** ** The [find-collabs] command *)

Definition MAX_LINES : Z := 40.

(** The locals [total_hits] and [lines]. *)
Record tally := Tally {
  total_hits : Z;
  lines : list str
}.

(** [f"[link]({m.jump_url})"] *)
Definition link (m : Message) : str := lit "[link](" ++ jump_url m ++ lit ")".

(** [", ".join(f"[link]({m.jump_url})" for m in hits[:3])] *)
Definition sample_links (hits : list Message) : str :=
  join (lit ", ") (map link (take 3 hits)).

(** The suffix of a summary line when more than three messages were found. *)
Definition more (hits : list Message) : str :=
  if 3 <? len hits then [32; 226; 8364; 166]%N else [].

(** The three kinds of summary lines; the code points outside ASCII are
    those of the literals as the source file has them. *)
Definition category_line (cat : CategoryChannel) : str :=
  lit "**Category:** " ++ cat_name cat ++ lit " (`" ++ str_of_int (cat_id cat)
  ++ lit "`)".

Definition channel_line (ch : TextChannel) (hits : list Message) : str :=
  [226; 8364; 162; 32]%N ++ lit "<#" ++ str_of_int (ch_id ch) ++ lit "> "
  ++ [226; 8364; 8221]%N ++ lit " " ++ str_of_int (len hits)
  ++ lit " mention(s): " ++ sample_links hits ++ more hits.

Definition thread_line (th : Thread) (th_msgs : list Message) : str :=
  [32; 32; 32; 226; 8224; 179; 32; 240; 376; 167; 181; 32]%N ++ lit "<#"
  ++ str_of_int (th_id th) ++ lit "> " ++ [226; 8364; 8221]%N ++ lit " "
  ++ str_of_int (len th_msgs) ++ lit " mention(s): " ++ sample_links th_msgs
  ++ more th_msgs.

Definition truncation_note : str :=
  lit "_Output truncated; see attachment for the full list._".

(** [for th, th_msgs in thread_hits]: one iteration. *)
Definition add_thread (st : tally) (hit : Thread * list Message) : tally :=
  {| total_hits := total_hits st + len hit.2;
     lines := lines st ++ [thread_line hit.1 hit.2] |}.

Section Collect.

Variable invoker : User.
Variable after_dt : option datetime.
Variable per_channel_limit : Z.
Variable include_threads : bool.

(** The body of [for ch in cat.text_channels], with [cat_header_added] and
    the tally so far: the tally and [cat_header_added] after it, and whether
    it ended in [break]. *)
Definition channel_body (cat : CategoryChannel) (ch : TextChannel)
    (cat_header_added : bool) (st : tally) : M (tally * bool * bool) :=
  let* hits := _search_channel_for_mentions ch invoker after_dt per_channel_limit in
  if truthy hits then
    let total := total_hits st + len hits in
    let lines1 :=
      if negb cat_header_added then lines st ++ [category_line cat]
      else lines st in
    let lines2 := lines1 ++ [channel_line ch hits] in
    let st2 := {| total_hits := total; lines := lines2 |} in
    let* st3 :=
      (if include_threads then
         let* thread_hits :=
           _search_active_threads_for_mentions ch invoker after_dt
             (Z.min per_channel_limit 100) in
         ret (fold_left add_thread thread_hits st2)
       else ret st2) in
    if MAX_LINES <=? len (lines st3) then
      ret ({| total_hits := total_hits st3;
              lines := lines st3 ++ [truncation_note] |}, true, true)
    else ret (st3, true, false)
  else ret (st, cat_header_added, false).

Fixpoint channels_loop (cat : CategoryChannel) (chs : list TextChannel)
    (cat_header_added : bool) (st : tally) : M tally :=
  match chs with
  | [] => ret st
  | ch :: rest =>
      let* (st', header', broke) := channel_body cat ch cat_header_added st in
      if broke then ret st' else channels_loop cat rest header' st'
  end.

(** [for cat in target_categories] *)
Fixpoint categories_loop (cats : list CategoryChannel) (st : tally) : M tally :=
  match cats with
  | [] => ret st
  | cat :: rest =>
      let* st' := channels_loop cat (text_channels cat) false st in
      if MAX_LINES <=? len (lines st') then ret st'
      else categories_loop rest st'
  end.

(** The "Collect results" part of the handler. *)
Definition collect_results (target_categories : list CategoryChannel) : M tally :=
  categories_loop target_categories {| total_hits := 0; lines := [] |}.

End Collect.

(** [embed.add_field(name=..., value=..., inline=...)] *)
Definition add_field (e : Embed) (name value : str) (inline : bool) : Embed :=
  {| title := title e;
     description := description e;
     embed_fields := embed_fields e ++ [(name, value, inline)] |}.

(** [for name, value in fs: embed.add_field(name=name, value=value, inline=False)] *)
Definition add_fields (e : Embed) (fs : list field) : Embed :=
  fold_left (fun e f => add_field e f.1 f.2 false) fs e.

(** [invoker.mention] *)
Definition mention (u : User) : str := lit "<@" ++ str_of_int (user_id u) ++ lit ">".

Definition note_field : str * str * bool :=
  (lit "Note",
   lit "Output truncated in embed; see attached `mentions_report.txt` for the full list.",
   false).

(** From [embed = discord.Embed(...)] to the choice of what is sent: the
    embed and the attachment, if any. *)
Definition build_report (total : Z) (invoker : User) (days : Z)
    (report_lines : list str) : outcome (Embed * option File) :=
  let embed :=
    {| title := lit "Mentions Found";
       description :=
         lit "Found **" ++ str_of_int total ++ lit "** mention(s) for "
         ++ mention invoker ++ lit " in the last **" ++ str_of_int days
         ++ lit "** day(s).";
       embed_fields := [] |} in
  let fs := chunk_lines_into_fields report_lines (lit "Results") in
  if EMBED_MAX_FIELDS <=? len fs then
    let full_text := join nl report_lines in
    match utf8_encode full_text with
    | None => Raise UnicodeEncodeError
    | Some bytes =>
        let file_obj := {| fp := bytes; filename := lit "mentions_report.txt" |} in
        let kept := Z.min 10 (EMBED_MAX_FIELDS - 1) in
        let embed1 := add_fields embed (take (Z.to_nat kept) fs) in
        Ok (add_field embed1 note_field.1.1 note_field.1.2 note_field.2,
            Some file_obj)
    end
  else Ok (add_fields embed fs, None).

(** [datetime.now(timezone.utc) - timedelta(days=max(0, days))], in
    microseconds since the first instant a [datetime] can hold; both the
    [timedelta] and the difference can be out of range. *)
Definition time_window (now : datetime) (days : Z) : outcome datetime :=
  let d := Z.max 0 days in
  if 999999999 <? d then Raise OverflowError
  else
    let t := now - d * 86400000000 in
    if t <? 0 then Raise OverflowError else Ok t.

Record Interaction := {
  guild : option Guild;
  user : User
}.

Definition lift {A} (r : outcome A) : M A := ([], r).

Section Commands.

Variable lower : str -> str.

(** What the clock reads when the handler asks. *)
Variable now : datetime.

(** From "Time window" to the end of the handler. *)
Definition scan_and_report (interaction : Interaction)
    (target_categories : list CategoryChannel) (days per_channel_limit : Z)
    (include_threads : bool) : M unit :=
  let* after_dt := lift (time_window now days) in
  let invoker := user interaction in
  let* st := collect_results invoker (Some after_dt) per_channel_limit
               include_threads target_categories in
  if total_hits st =? 0 then
    emit (EvSendText
            (lit "No pings found for you in the selected categories and time window.")
            true)
  else
    let* report := lift (build_report (total_hits st) invoker days (lines st)) in
    emit (EvSendEmbed report.1 report.2 true).

Definition find_collabs (interaction : Interaction) (categories_spec : str)
    (days per_channel_limit : Z) (include_threads : bool) : M unit :=
  let* _ := emit (EvDefer true true) in
  match guild interaction with
  | None => emit (EvSendText (lit "This command must be used in a server.") true)
  | Some g =>
      if truthy (strip categories_spec) then
        let* target_categories := lift (_parse_category_spec lower g categories_spec) in
        if negb (truthy target_categories) then
          emit (EvSendText
                  (lit "I couldn't match any categories from your input. "
                   ++ lit "Provide comma-separated category names or IDs.") true)
        else
          scan_and_report interaction target_categories days per_channel_limit
            include_threads
      else
        scan_and_report interaction (categories g) days per_channel_limit
          include_threads
  end.

End Commands.

(** ** The [ha-chat] command: [run_agent_call] *)

(** The Python objects an agent can hand back, by what the code asks of
    them. *)
Class PyRuntime (obj : Type) := {
  py_None : obj;
  isinstance_BaseModel : obj -> bool;
  isinstance_dict : obj -> bool;
  model_dump : obj -> outcome obj;
  py_str : obj -> outcome str
}.

(** What [run_agent_call] returns: a mapping object or a string. *)
Inductive agent_output (obj : Type) :=
  | OutObject (o : obj)
  | OutString (s : str).
Arguments OutObject {obj} o.
Arguments OutString {obj} s.

Section Agent.

Context {obj : Type} `{PyRuntime obj}.

(** [agent.invoke({"messages": [{"role": "user", "content": message}]})] *)
Variable agent_invoke : str -> outcome (gmap string obj).

Definition stringify (structured : obj) : outcome (agent_output obj) :=
  match py_str structured with
  | Ok s => Ok (OutString s)
  | Raise e => Raise e
  end.

(** The body of the [try]. *)
Definition convert (structured : obj) : outcome (agent_output obj) :=
  if isinstance_BaseModel structured then
    match model_dump structured with
    | Ok d => Ok (OutObject d)
    | Raise e => Raise e
    end
  else if isinstance_dict structured then Ok (OutObject structured)
  else stringify structured.

(** [try: ... except Exception: return str(structured)] *)
Definition normalize (structured : obj) : outcome (agent_output obj) :=
  match convert structured with
  | Ok out => Ok out
  | Raise e => if is_Exception e then stringify structured else Raise e
  end.

Definition run_agent_call (message : str) : outcome (agent_output obj) :=
  match agent_invoke message with
  | Raise e => Raise e
  | Ok result => normalize (default py_None (result !! "structured_response"%string))
  end.

End Agent.

(** * Notions the properties are stated with *)

(** ** The formatter loop: what it maintains

    [groups] are the lines of the fields closed so far, [kept] the lines
    read so far that were not blank. *)

Definition oversize_head (kept : list str) : bool :=
  match kept with
  | l :: _ => EMBED_FIELD_LIMIT <? len l
  | [] => false
  end.

Definition empty_head (groups : list (list str)) : bool :=
  match groups with
  | [] :: _ => true
  | _ => false
  end.

Record chunk_inv (kept : list str) (st : chunker) (groups : list (list str))
  : Prop := ChunkInv {
  inv_values : map snd (fields st) = map (join nl) groups;
  inv_lines : concat groups ++ buf st = kept;
  inv_len : buf_len st = len (join nl (buf st));
  inv_started : buf st = [] -> groups = [];
  inv_tail : Forall (fun g => g <> []) (tail groups);
  inv_head : oversize_head kept = empty_head groups;
  inv_bound :
    Forall (fun g => len (join nl g) <= EMBED_FIELD_LIMIT \/ exists l, g = [l]) groups;
  inv_buf_bound : buf_len st <= EMBED_FIELD_LIMIT \/ exists l, buf st = [l]
}.

(** The names [f"{prefix} 1"], [f"{prefix} 2"], ... of [n] fields. *)
Definition numbered (prefix : str) (n : nat) : list str :=
  map (fun i => prefix ++ lit " " ++ str_of_int (Z.of_nat i)) (seq 1 n).

(** ** Reading a history

    The messages an iteration yields, and the exception that ends it, if one
    does. *)

Fixpoint yielded (it : history_iter) : list Message :=
  match it with
  | HStop => []
  | HYield m rest => m :: yielded rest
  | HRaise _ => []
  end.

Fixpoint ending (it : history_iter) : option exn :=
  match it with
  | HStop => None
  | HYield _ rest => ending rest
  | HRaise e => Some e
  end.

(** The same history, ending quietly where it raised. *)
Fixpoint quiet (it : history_iter) : history_iter :=
  match it with
  | HStop => HStop
  | HYield m rest => HYield m (quiet rest)
  | HRaise _ => HStop
  end.

Definition quiet_channel (ch : TextChannel) : TextChannel :=
  {| ch_id := ch_id ch;
     ch_history := fun kw => quiet (ch_history ch kw);
     threads := threads ch |}.

(** [needle] occurs in [haystack] as a substring. *)
Definition occurs_in (needle haystack : str) : Prop :=
  exists pre post, haystack = pre ++ needle ++ post.

(** The direct hits of a channel: the yielded messages that count. *)
Definition direct_hits (user : User) (kw : kwargs) (ch : TextChannel) : list Message :=
  List.filter (channel_counts user) (yielded (ch_history ch kw)).

(** What one thread adds to the result of the per-thread scan. *)
Definition thread_result (user : User) (kw : kwargs) (th : Thread)
  : list (Thread * list Message) :=
  if locked th then []
  else
    match ending (th_history th kw) with
    | Some _ => []
    | None =>
        let th_hits := List.filter (thread_counts user) (yielded (th_history th kw)) in
        if truthy th_hits then [(th, th_hits)] else []
    end.

(** No history of an unlocked thread ends in an exception other than the
    two the scan catches. *)
Definition threads_benign (kw : kwargs) (ths : list Thread) : Prop :=
  Forall (fun th =>
            locked th = false ->
            forall e, ending (th_history th kw) = Some e -> is_HTTPException e = true)
    ths.

(** ** The line cap of [find-collabs] *)

(** The same category with other text channels. *)
Definition with_channels (cat : CategoryChannel) (chs : list TextChannel)
  : CategoryChannel :=
  {| cat_id := cat_id cat; cat_name := cat_name cat; text_channels := chs |}.

(** The tally is still under the cap and holds no truncation note. *)
Definition under_cap (st : tally) : Prop :=
  len (lines st) < MAX_LINES /\ truncation_note ∉ lines st.

(** The tally reached the cap: its lines are at least [MAX_LINES] summary
    lines and then the truncation note, once. *)
Definition capped (st : tally) : Prop :=
  exists body,
    lines st = body ++ [truncation_note]
    /\ MAX_LINES <= len body
    /\ truncation_note ∉ body.

(** ** Resolving a list of candidates in order

    Both passes of the resolver take candidates one by one and remember
    those whose identifier was not seen. *)
Definition absorb (cs : list CategoryChannel) (st : resolver_state) : resolver_state :=
  fold_left
    (fun st c => if negb (bool_decide (cat_id c ∈ st.1)) then remember c st else st)
    cs st.

(** Every token that [isdigit] accepts is one [int] converts. *)
Definition tokens_convert (parts : list str) : Prop :=
  Forall (fun p => isdigit p = true -> int_of_str p <> None) parts.

(** ** Text that UTF-8 can carry *)

(** A Unicode scalar value: a code point that is not a surrogate. *)
Definition scalar_value (c : codepoint) : bool :=
  ((c <? 55296) || ((57343 <? c) && (c <? 1114112)))%N.

(** A string without lone surrogates. *)
Definition encodable (s : str) : Prop := forallb scalar_value s = true.

(** * Concrete inputs *)

(** A line of 1025 characters, one more than a field can hold. *)
Definition long_line : str := repeat 120%N 1025.

(** Twenty-five lines of 600 characters: no two fit one field. *)
Definition report_lines_25 : list str := repeat (repeat 120%N 600) 25.

(** A user, messages that mention them or not, and a few histories. *)
Definition alice : User := {| user_id := 42 |}.
Definition bob : User := {| user_id := 7 |}.

Definition m_structured : Message :=
  {| msg_id := 1; mentions := [alice]; content := lit "hello";
     jump_url := lit "https://discord.com/channels/1/10/1" |}.

Definition m_textual : Message :=
  {| msg_id := 2; mentions := []; content := lit "ping <@!42> please";
     jump_url := lit "https://discord.com/channels/1/10/2" |}.

Definition m_other : Message :=
  {| msg_id := 3; mentions := [bob]; content := lit "ping <@7>";
     jump_url := lit "https://discord.com/channels/1/10/3" |}.

(** A channel whose second page of history fails after the first one gave a
    hit. *)
Definition ch_partial : TextChannel :=
  {| ch_id := 10;
     ch_history := fun _ => HYield m_structured (HYield m_other (HRaise HTTPException));
     threads := [] |}.

Definition th_locked : Thread :=
  {| th_id := 21; locked := true; th_history := fun _ => HYield m_structured HStop |}.
Definition th_denied : Thread :=
  {| th_id := 22; locked := false;
     th_history := fun _ => HYield m_structured (HRaise Forbidden) |}.
Definition th_silent : Thread :=
  {| th_id := 23; locked := false; th_history := fun _ => HYield m_other HStop |}.
Definition th_busy : Thread :=
  {| th_id := 24; locked := false;
     th_history := fun _ => HYield m_other (HYield m_textual HStop) |}.

Definition ch_threads : TextChannel :=
  {| ch_id := 11;
     ch_history := fun _ => HYield m_textual HStop;
     threads := [th_locked; th_denied; th_silent; th_busy] |}.

(** A category with the two channels above. *)
Definition cat_dev : CategoryChannel :=
  {| cat_id := 123456789012345678; cat_name := lit "Dev";
     text_channels := [ch_partial; ch_threads] |}.

(** A channel with a direct hit and forty threads with a hit each: its
    summary alone fills the report. *)
Definition many_threads : list Thread :=
  map (fun i => {| th_id := Z.of_nat i; locked := false;
                   th_history := fun _ => HYield m_textual HStop |})
    (seq 100 40).

Definition ch_crowded : TextChannel :=
  {| ch_id := 12; ch_history := fun _ => HYield m_textual HStop;
     threads := many_threads |}.

Definition cat_big : CategoryChannel :=
  {| cat_id := 5; cat_name := lit "Big"; text_channels := [ch_crowded] |}.

Definition crowded_trace : list event :=
  Eval vm_compute in
    (collect_results alice None 200 true [with_channels cat_big [ch_crowded]]).1.

Definition crowded_tally : tally :=
  Eval vm_compute in
    match (collect_results alice None 200 true [with_channels cat_big [ch_crowded]]).2 with
    | Ok st => st
    | Raise _ => {| total_hits := 0; lines := [] |}
    end.

(** [str.lower] on ASCII text. *)
Definition ascii_lower (s : str) : str :=
  map (fun c => if ((65 <=? c) && (c <=? 90))%N then (c + 32)%N else c) s.

Definition cat_general : CategoryChannel :=
  {| cat_id := 222222222222222222; cat_name := lit "General"; text_channels := [] |}.

(** The guild of the specification's example: the category Dev under the
    identifier of the example, a category General, and a text channel. *)
Definition example_guild : Guild :=
  {| get_channel := fun n =>
       if n =? 123456789012345678 then Some (GCategory cat_dev)
       else if n =? 222222222222222222 then Some (GCategory cat_general)
       else if n =? 10 then Some (GText ch_partial)
       else None;
     categories := [cat_dev; cat_general] |}.

(** ** A small Python runtime

    The objects an agent can answer with, enough to run [run_agent_call]:
    [None], a contact model, a model whose [model_dump] fails, a plain
    mapping and a string. *)
Inductive simple_obj :=
  | SNone
  | SContact (name email phone : str)
  | SBroken
  | SDict (items : list (str * str))
  | SText (s : str).

#[global] Instance simple_runtime : PyRuntime simple_obj := {
  py_None := SNone;
  isinstance_BaseModel o :=
    match o with SContact _ _ _ | SBroken => true | _ => false end;
  isinstance_dict o := match o with SDict _ => true | _ => false end;
  model_dump o :=
    match o with
    | SContact n e p => Ok (SDict [(lit "name", n); (lit "email", e); (lit "phone", p)])
    | SBroken => Raise OtherException
    | _ => Raise OtherException
    end;
  py_str o :=
    match o with
    | SNone => Ok (lit "None")
    | SContact n e p =>
        Ok (lit "name='" ++ n ++ lit "' email='" ++ e ++ lit "' phone='" ++ p ++ lit "'")
    | SBroken => Ok (lit "Broken()")
    | SDict _ => Ok (lit "{...}")
    | SText s => Ok s
    end
}.

Definition contact_a : simple_obj := SContact (lit "A") (lit "a@x.com") (lit "123").

(** * Further inputs *)

(** Thirty lines of fifty characters, some with blanks around them, and a
    blank line between. *)
Definition thirty_lines : list str :=
  repeat (lit "  " ++ repeat 120%N 50 ++ lit " ") 15 ++ [lit "   "]
  ++ repeat (repeat 120%N 50) 15.

(** A thread with the history of [ch_partial]: a hit, then a page that
    fails. *)
Definition th_partial : Thread :=
  {| th_id := 25; locked := false; th_history := ch_history ch_partial |}.

Definition ch_sibling : TextChannel :=
  {| ch_id := 13; ch_history := fun _ => HStop; threads := [th_partial] |}.

(** Twenty-five lines of 600 characters, the last one starting with the
    lone surrogate U+D800. *)
Definition surrogate_lines : list str :=
  repeat (repeat 120%N 600) 24 ++ [55296%N :: repeat 120%N 599].

(** A second small runtime: [None], an object of some other class whose
    [__str__] raises, and a model whose [model_dump] is interrupted. *)
Inductive opaque_obj :=
  | ONone
  | OMute
  | OInterrupted.

#[global] Instance opaque_runtime : PyRuntime opaque_obj := {
  py_None := ONone;
  isinstance_BaseModel o := match o with OInterrupted => true | _ => false end;
  isinstance_dict _ := false;
  model_dump o :=
    match o with
    | OInterrupted => Raise NonException
    | _ => Raise OtherException
    end;
  py_str o :=
    match o with
    | ONone => Ok (lit "None")
    | OMute => Raise OtherException
    | OInterrupted => Ok (lit "Interrupted()")
    end
}.

(** * Further notions *)

(** The message mentions the user: the user is in its mention list, or its
    text holds [<@id>], or its text holds [<@!id>]. *)
Definition mentioned (u : User) (msg : Message) : Prop :=
  u ∈ mentions msg
  \/ occurs_in (lit "<@" ++ str_of_int (user_id u) ++ lit ">") (content msg)
  \/ occurs_in (lit "<@!" ++ str_of_int (user_id u) ++ lit ">") (content msg).

(** The history ends without an exception, or with one the scans catch. *)
Definition ends_benign (it : history_iter) : Prop :=
  forall e, ending it = Some e -> is_HTTPException e = true.

(** The next field starts with a line that did not fit the field before it:
    the value [join nl g1], a newline and the first line of [g2] are more
    than a field holds. *)
Definition forced_break (g1 g2 : list str) : Prop :=
  exists l r, g2 = l :: r /\ EMBED_FIELD_LIMIT < len (join nl g1) + 1 + len l.

(** Every break between two consecutive groups is forced. *)
Inductive tight : list (list str) -> Prop :=
  | tight_nil : tight []
  | tight_one g : tight [g]
  | tight_cons g1 g2 rest :
      forced_break g1 g2 -> tight (g2 :: rest) -> tight (g1 :: g2 :: rest).

Record tight_inv (kept : list str) (st : chunker) (groups : list (list str))
  : Prop := TightInv {
  tinv_values : map snd (fields st) = map (join nl) groups;
  tinv_lines : concat groups ++ buf st = kept;
  tinv_len : buf_len st = len (join nl (buf st));
  tinv_started : buf st = [] -> groups = [];
  tinv_tight : tight (groups ++ [buf st])
}.

(** ** The resolver: what a token names *)

(** The boolean form of [tokens_convert]. *)
Definition tokens_convertb (parts : list str) : bool :=
  forallb (fun p => negb (isdigit p) || bool_decide (int_of_str p <> None)) parts.

Section Naming.

Variable lower : str -> str.

(** Token [p] names category [c]: by identifier when the token is numeric,
    by name, case-insensitively, when it is not. *)
Definition names_category (guild : Guild) (p : str) (c : CategoryChannel) : Prop :=
  (isdigit p = true
   /\ exists n, int_of_str p = Some n /\ get_channel guild n = Some (GCategory c))
  \/ (isdigit p = false
      /\ c ∈ categories guild /\ lower (cat_name c) = lower p).

End Naming.

(** ** Calls to the platform *)

(** The history call the scan of a channel, or of a thread, makes. *)
Definition channel_call (kw : kwargs) (ch : TextChannel) : event :=
  EvChannelHistory (ch_id ch) kw.
Definition thread_call (kw : kwargs) (th : Thread) : event :=
  EvThreadHistory (th_id th) kw.

(** A channel whose history raises an error the scan does not catch, after
    a message that counts. *)
Definition ch_failing : TextChannel :=
  {| ch_id := 13;
     ch_history := fun _ => HYield m_structured (HRaise OtherException);
     threads := [] |}.

Definition th_failing : Thread :=
  {| th_id := 25; locked := false;
     th_history := fun _ => HYield m_textual (HRaise OtherException) |}.

(** Whether an event is the history call of a channel, of a thread, or a
    message sent to the user. *)
Definition is_channel_call (ev : event) : bool :=
  match ev with EvChannelHistory _ _ => true | _ => false end.

Definition is_history_call (ev : event) : bool :=
  match ev with EvChannelHistory _ _ | EvThreadHistory _ _ => true | _ => false end.

(** A follow-up message, sent so that only the invoking user sees it. *)
Definition is_ephemeral_send (ev : event) : bool :=
  match ev with
  | EvSendText _ ephemeral | EvSendEmbed _ _ ephemeral => ephemeral
  | _ => false
  end.

(** The history of the channel, as the scan asks for it, has no message
    that counts and ends without an error the scan does not catch. *)
Definition no_hit_channel (u : User) (kw : kwargs) (ch : TextChannel) : Prop :=
  direct_hits u kw ch = []
  /\ forall e, ending (ch_history ch kw) = Some e -> is_HTTPException e = true.

(** The text channels of the categories, in the order of the scan. *)
Definition all_channels (cats : list CategoryChannel) : list TextChannel :=
  concat (map text_channels cats).

(** A category whose channels have nothing for alice. *)
Definition ch_quiet : TextChannel :=
  {| ch_id := 15; ch_history := fun _ => HYield m_other (HRaise Forbidden);
     threads := [th_busy] |}.

Definition cat_quiet : CategoryChannel :=
  {| cat_id := 6; cat_name := lit "Quiet";
     text_channels := [ch_quiet; {| ch_id := 16; ch_history := fun _ => HStop;
                                    threads := [] |}] |}.

(** The run over [cat_dev] without threads. *)
Definition dev_trace : list event :=
  Eval vm_compute in (collect_results alice None 200 false [cat_dev]).1.

Definition dev_tally : tally :=
  Eval vm_compute in
    match (collect_results alice None 200 false [cat_dev]).2 with
    | Ok st => st
    | Raise _ => {| total_hits := 0; lines := [] |}
    end.

(** An interaction of alice in a guild with the two quiet channels. *)
Definition quiet_guild : Guild :=
  {| get_channel := fun _ => None; categories := [cat_quiet] |}.

Definition quiet_interaction : Interaction :=
  {| guild := Some quiet_guild; user := alice |}.

(** A clock reading well after the first instant: about the year 2026 in
    microseconds. *)
Definition a_clock : datetime := 63900000000000000.

(** What [build_report] makes of the crowded run. *)
Definition crowded_report : Embed * option File :=
  Eval vm_compute in
    match build_report (total_hits crowded_tally) alice 7 (lines crowded_tally) with
    | Ok r => r
    | Raise _ => ({| title := []; description := []; embed_fields := [] |}, None)
    end.

(** * The reply of [ha-chat] *)

(** What the rendering asks of the objects besides [PyRuntime]: the items
    of a mapping, in its order, and [k.capitalize()], which raises for a key
    that is not a string. *)
Class PyMapping (obj : Type) := {
  dict_items : obj -> list (obj * obj);
  capitalize : obj -> outcome str
}.

(** [discord.Embed] as [ask] builds it: the description may be left
    unset. *)
Record ResponseEmbed := {
  re_title : str;
  re_description : option str;
  re_fields : list (str * str * bool)
}.

Section Reply.

Context {obj : Type} `{PyRuntime obj} `{PyMapping obj}.

Variable agent_invoke : str -> outcome (gmap string obj).

(** [for k, v in output.items():
       embed.add_field(name=k.capitalize(), value=str(v), inline=False)] *)
Fixpoint add_items (items : list (obj * obj)) (e : ResponseEmbed)
  : outcome ResponseEmbed :=
  match items with
  | [] => Ok e
  | (k, v) :: rest =>
      match capitalize k with
      | Raise x => Raise x
      | Ok name =>
          match py_str v with
          | Raise x => Raise x
          | Ok value =>
              add_items rest
                {| re_title := re_title e;
                   re_description := re_description e;
                   re_fields := re_fields e ++ [(name, value, false)] |}
          end
      end
  end.

(** [embed.description = str(output)] *)
Definition describe (text : str) (e : ResponseEmbed) : ResponseEmbed :=
  {| re_title := re_title e; re_description := Some text; re_fields := re_fields e |}.

(** From [embed = discord.Embed(title=...)] to the embed that is sent. *)
Definition render_output (output : agent_output obj) : outcome ResponseEmbed :=
  let embed :=
    {| re_title := lit "Ha-chan's Response"; re_description := None; re_fields := [] |} in
  match output with
  | OutObject o =>
      if isinstance_dict o then add_items (dict_items o) embed
      else
        match py_str o with
        | Ok text => Ok (describe text embed)
        | Raise x => Raise x
        end
  | OutString s => Ok (describe s embed)
  end.

(** The embed [ask] sends, or what it raises. *)
Definition ask_reply (message : str) : outcome ResponseEmbed :=
  match run_agent_call agent_invoke message with
  | Raise e => Raise e
  | Ok output => render_output output
  end.

(** [[(k.capitalize(), str(v)) for k, v in items]], when nothing raises. *)
Fixpoint field_texts (items : list (obj * obj)) : option (list (str * str * bool)) :=
  match items with
  | [] => Some []
  | (k, v) :: rest =>
      match capitalize k, py_str v, field_texts rest with
      | Ok name, Ok value, Some fs => Some ((name, value, false) :: fs)
      | _, _, _ => None
      end
  end.

End Reply.

(** [s.capitalize()] on ASCII text. *)
Definition ascii_capitalize (s : str) : str :=
  match s with
  | [] => []
  | c :: rest =>
      (if ((97 <=? c) && (c <=? 122))%N then (c - 32)%N else c) :: ascii_lower rest
  end.

#[global] Instance simple_mapping : PyMapping simple_obj := {
  dict_items o :=
    match o with
    | SDict items => map (fun kv => (SText kv.1, SText kv.2)) items
    | _ => []
    end;
  capitalize o :=
    match o with
    | SText s => Ok (ascii_capitalize s)
    | _ => Raise OtherException
    end
}.

(** * [tools.py]: [collect_collab_metadata] *)

Module Tools.

(** A text channel, by what the summary reads of it. *)
Record Channel := {
  name : str;
  created_at : datetime;
  topic : option str
}.

(** What [guild.get_channel] can return besides [None]. *)
Inductive guild_channel :=
  | Category (text_channels : list Channel)
  | NotCategory.

Record Guild := {
  get_channel : Z -> option guild_channel;
  text_channels : list Channel
}.

Section Metadata.

(** [datetime.isoformat] is taken as given. *)
Variable isoformat : datetime -> str.

(** [channel.topic or "No topic set"] *)
Definition topic_or_default (ch : Channel) : str :=
  match topic ch with
  | Some t => if truthy t then t else lit "No topic set"
  | None => lit "No topic set"
  end.

(** [f"{channel.name} (created {created}) topic: {topic}"] *)
Definition summary (ch : Channel) : str :=
  name ch ++ lit " (created " ++ isoformat (created_at ch) ++ lit ") topic: "
  ++ topic_or_default ch.

(** The local [channels] when the summaries are made. *)
Definition selected_channels (guild : Guild) (collab_category_id : option Z)
  : list Channel :=
  match collab_category_id with
  | Some id =>
      if negb (id =? 0) then
        match get_channel guild id with
        | Some (Category chs) => chs
        | _ => []
        end
      else text_channels guild
  | None => text_channels guild
  end.

Definition collect_collab_metadata (guild : option Guild)
    (collab_category_id : option Z) : str :=
  match guild with
  | None => lit "No guild context available."
  | Some g =>
      let channels := selected_channels g collab_category_id in
      let summaries := map summary channels in
      if truthy (join nl summaries) then join nl summaries
      else lit "No collab channels found."
  end.

End Metadata.

(** A guild with two text channels, one of them in category 77. *)
Definition ch_art : Channel :=
  {| name := lit "art"; created_at := 63900000000000000; topic := Some [] |}.
Definition ch_music : Channel :=
  {| name := lit "music"; created_at := 63900000000000001;
     topic := Some (lit "weekly jam") |}.
Definition small_guild : Guild :=
  {| get_channel := fun id =>
       if id =? 77 then Some (Category [ch_music])
       else if id =? 78 then Some NotCategory
       else None;
     text_channels := [ch_art; ch_music] |}.

(** A stand-in for [isoformat]: the number of microseconds. *)
Definition plain_isoformat (t : datetime) : str := str_of_int t.

End Tools.

(** An ASCII digit, [0] to [9]. *)
Definition is_ascii_digit (c : codepoint) : bool := ((48 <=? c) && (c <=? 57))%N.

(** * Properties *)

(** ** Strings and lists *)

Lemma len_app {A} (l1 l2 : list A) : len (l1 ++ l2) = len l1 + len l2.
Proof. unfold len. rewrite length_app. lia. Qed.

Lemma len_nonneg {A} (l : list A) : 0 <= len l.
Proof. unfold len. lia. Qed.

Lemma truthy_true {A} (l : list A) : truthy l = true <-> l <> [].
Proof. destruct l; simpl; split; congruence. Qed.

Lemma truthy_false {A} (l : list A) : truthy l = false <-> l = [].
Proof. destruct l; simpl; split; congruence. Qed.

Lemma join_snoc sep (parts : list str) (x : str) :
  join sep (parts ++ [x]) = if truthy parts then join sep parts ++ sep ++ x else x.
Proof.
  induction parts as [|y ys IH]; [reflexivity|].
  destruct ys as [|z zs]; [reflexivity|].
  change (join sep ((y :: z :: zs) ++ [x]))
    with (y ++ sep ++ join sep ((z :: zs) ++ [x])).
  rewrite IH. simpl truthy. cbn iota.
  change (join sep (y :: z :: zs)) with (y ++ sep ++ join sep (z :: zs)).
  by rewrite <- !app_assoc.
Qed.

Lemma join_cons sep (x : str) (parts : list str) :
  join sep (x :: parts) = if truthy parts then x ++ sep ++ join sep parts else x.
Proof. by destruct parts. Qed.

Lemma join_app sep (xs ys : list str) :
  xs <> [] -> ys <> [] ->
  join sep (xs ++ ys) = join sep xs ++ sep ++ join sep ys.
Proof.
  intros Hxs Hys. induction xs as [|x xs IH]; [done|].
  destruct xs as [|x' xs'].
  - simpl app. rewrite join_cons. apply truthy_true in Hys. by rewrite Hys.
  - change ((x :: x' :: xs') ++ ys) with (x :: ((x' :: xs') ++ ys)).
    rewrite join_cons. simpl truthy. cbn iota. rewrite IH by done.
    rewrite (join_cons sep x (x' :: xs')). simpl truthy. cbn iota.
    by rewrite <- !app_assoc.
Qed.

(** Joining the joins of non-empty groups is joining all their members. *)
Lemma join_groups sep (groups : list (list str)) :
  Forall (fun g => g <> []) groups ->
  join sep (map (join sep) groups) = join sep (concat groups).
Proof.
  induction 1 as [|g gs Hg Hgs IH]; [reflexivity|].
  destruct gs as [|g' gs'].
  - simpl. by rewrite app_nil_r.
  - change (map (join sep) (g :: g' :: gs'))
      with (join sep g :: map (join sep) (g' :: gs')).
    rewrite join_cons. simpl truthy. cbn iota. rewrite IH.
    change (concat (g :: g' :: gs')) with (g ++ concat (g' :: gs')).
    rewrite join_app; [done..|].
    inversion Hgs as [|? ? Hg' _]; subst. simpl. by destruct g'.
Qed.

(** ** The report formatter *)

Lemma kept_lines_snoc (ls : list str) (l : str) :
  kept_lines (ls ++ [l])
  = kept_lines ls ++ (if truthy (strip l) then [strip l] else []).
Proof.
  unfold kept_lines. rewrite List.map_app, List.filter_app. simpl.
  by destruct (truthy (strip l)).
Qed.

Lemma chunk_loop_snoc prefix (ls : list str) (l : str) :
  chunk_loop prefix (ls ++ [l]) = chunk_step prefix (chunk_loop prefix ls) l.
Proof. unfold chunk_loop. by rewrite fold_left_app. Qed.

Lemma empty_head_snoc (groups : list (list str)) (b : list str) :
  (b = [] -> groups = []) -> groups <> [] \/ b <> [] ->
  empty_head (groups ++ [b]) = empty_head groups.
Proof.
  intros Hb Hne. destruct groups as [|g gs]; [|reflexivity].
  destruct b; [|reflexivity]. destruct Hne; done.
Qed.

Lemma chunk_step_inv prefix kept st groups (line0 : str) :
  chunk_inv kept st groups ->
  exists groups',
    chunk_inv (kept ++ (if truthy (strip line0) then [strip line0] else []))
      (chunk_step prefix st line0) groups'.
Proof.
  intros [Hval Hlines Hlen Hstart Htail Hhead Hbound Hbuf].
  unfold chunk_step.
  destruct (truthy (strip line0)) eqn:Hline; simpl negb; cbn iota.
  2:{ exists groups. rewrite app_nil_r. by constructor. }
  set (line := strip line0) in *.
  destruct (EMBED_FIELD_LIMIT <? _) eqn:Hover.
  - (* the buffer is closed and [line] starts the next one *)
    apply Z.ltb_lt in Hover.
    exists (groups ++ [buf st]). constructor; simpl.
    + unfold flush. rewrite !List.map_app. simpl. f_equal. exact Hval.
    + rewrite concat_app. simpl. rewrite app_nil_r, <- app_assoc.
      by rewrite (app_assoc (concat groups)), Hlines.
    + reflexivity.
    + done.
    + destruct groups as [|g gs]; [constructor|].
      simpl in *. apply Forall_app. split; [done|].
      constructor; [|constructor]. intros Hb. by specialize (Hstart Hb).
    + destruct kept as [|k ks].
      * apply app_eq_nil in Hlines as [Hg Hb]. specialize (Hstart Hb). subst groups.
        rewrite Hb in *. simpl in *. rewrite Hlen in Hover. simpl in Hover.
        apply Z.ltb_lt. unfold len in *. simpl in *. lia.
      * rewrite empty_head_snoc; [done|done|].
        destruct groups; [right|by left]. simpl in Hlines. by rewrite Hlines.
    + apply Forall_app. split; [done|]. constructor; [|constructor].
      destruct Hbuf as [Hb|Hb]; [left|by right]. by rewrite <- Hlen.
    + right. by exists line.
  - (* [line] joins the buffer *)
    apply Z.ltb_ge in Hover.
    exists groups. constructor; simpl.
    + done.
    + by rewrite app_assoc, Hlines.
    + rewrite join_snoc. destruct (truthy (buf st)) eqn:Hb.
      * rewrite !len_app, Hlen. unfold nl, len. simpl. lia.
      * apply truthy_false in Hb. rewrite Hb in Hlen. rewrite Hlen.
        unfold len. simpl. lia.
    + intros Hb. by apply app_eq_nil in Hb as [_ ?].
    + done.
    + destruct kept as [|k ks]; [|done].
      apply app_eq_nil in Hlines as [Hg Hb]. specialize (Hstart Hb). subst groups.
      rewrite Hb in *. simpl in *. apply Z.ltb_ge.
      rewrite Hlen in Hover. unfold len in *. simpl in *. lia.
    + done.
    + left. lia.
Qed.

Lemma chunk_loop_inv prefix (ls : list str) :
  exists groups, chunk_inv (kept_lines ls) (chunk_loop prefix ls) groups.
Proof.
  induction ls as [|l ls IH] using rev_ind.
  - exists []. constructor; simpl; try done; try apply Forall_nil_2.
    left. unfold EMBED_FIELD_LIMIT. lia.
  - destruct IH as [groups IH].
    rewrite kept_lines_snoc, chunk_loop_snoc. by eapply chunk_step_inv.
Qed.

(** The values of the fields returned are the joins of groups of kept lines;
    [groups] lists the lines of every field, the last one included. *)
Lemma chunk_fields_groups (lines : list str) (prefix : str) :
  exists groups,
    map snd (chunk_lines_into_fields lines prefix) = map (join nl) groups
    /\ concat groups = kept_lines lines
    /\ Forall (fun g => g <> []) (tail groups)
    /\ oversize_head (kept_lines lines) = empty_head groups
    /\ Forall (fun g => len (join nl g) <= EMBED_FIELD_LIMIT \/ exists l, g = [l])
         groups
    /\ (kept_lines lines <> [] ->
        exists gs b, groups = gs ++ [b] /\ b <> []).
Proof.
  destruct (chunk_loop_inv prefix lines) as [groups Hinv].
  destruct Hinv as [Hval Hlines Hlen Hstart Htail Hhead Hbound Hbuf].
  unfold chunk_lines_into_fields. cbv zeta.
  destruct (truthy (buf (chunk_loop prefix lines))) eqn:Hb.
  - apply truthy_true in Hb. exists (groups ++ [buf (chunk_loop prefix lines)]).
    repeat split.
    + unfold flush. rewrite !List.map_app. simpl. f_equal. exact Hval.
    + rewrite concat_app. simpl. by rewrite app_nil_r.
    + destruct groups as [|g gs]; [constructor|]. simpl in *.
      apply Forall_app. split; [done|]. by constructor.
    + rewrite empty_head_snoc; [done|done|by right].
    + apply Forall_app. split; [done|]. constructor; [|constructor].
      destruct Hbuf as [Hle|Hone]; [left|by right]. by rewrite <- Hlen.
    + intros _. by eexists _, _.
  - apply truthy_false in Hb. specialize (Hstart Hb). subst groups.
    rewrite Hb in Hlines. simpl in Hlines. exists [].
    by split_and!.
Qed.

(** Every field value is within the limit or is one single kept line. *)
Lemma chunk_value_within_or_single (lines : list str) (prefix : str) (f : field) :
  f ∈ chunk_lines_into_fields lines prefix ->
  len f.2 <= EMBED_FIELD_LIMIT \/ f.2 ∈ kept_lines lines.
Proof.
  intros Hf.
  destruct (chunk_fields_groups lines prefix) as (groups & Hval & Hcat & _ & _ & Hb & _).
  assert (Hv : f.2 ∈ map (join nl) groups).
  { rewrite <- Hval. apply list_elem_of_In, in_map, list_elem_of_In, Hf. }
  apply list_elem_of_In, in_map_iff in Hv as (g & Hg & Hin).
  rewrite Forall_forall in Hb. apply list_elem_of_In in Hin.
  destruct (Hb g Hin) as [Hle|[l ->]].
  - left. by rewrite <- Hg.
  - right. simpl in Hg. subst l. rewrite <- Hcat.
    apply list_elem_of_In, in_concat. exists [f.2]. split.
    + by apply list_elem_of_In.
    + by left.
Qed.

(** The example of the specification: 30 lines of 50 characters make two
    fields, of 20 and 10 lines. *)
Example chunk_thirty_lines :
  map (fun f : field => len f.2)
    (chunk_lines_into_fields (repeat (repeat 120%N 50) 30) (lit "Summary"))
  = [1019; 509]
  /\ map fst (chunk_lines_into_fields (repeat (repeat 120%N 50) 30) (lit "Summary"))
     = [lit "Summary 1"; lit "Summary 2"].
Proof. split; vm_compute; reflexivity. Qed.

(** When no kept line is itself longer than the limit, no field value is. *)
Lemma chunk_values_bounded (lines : list str) (prefix : str) :
  Forall (fun l => len l <= EMBED_FIELD_LIMIT) (kept_lines lines) ->
  Forall (fun f : field => len f.2 <= EMBED_FIELD_LIMIT)
    (chunk_lines_into_fields lines prefix).
Proof.
  intros Hlines. apply Forall_forall. intros f Hf.
  destruct (chunk_value_within_or_single lines prefix f Hf) as [Hle|Hin]; [done|].
  rewrite Forall_forall in Hlines. by apply Hlines.
Qed.

(** The values joined by newlines are the kept lines joined by newlines,
    after one stray newline when the first kept line is over the limit. *)
Lemma chunk_values_join (lines : list str) (prefix : str) :
  join nl (map snd (chunk_lines_into_fields lines prefix))
  = (if oversize_head (kept_lines lines) then nl else [])
    ++ join nl (kept_lines lines).
Proof.
  destruct (chunk_fields_groups lines prefix)
    as (groups & Hval & Hcat & Htail & Hhead & _ & Hlast).
  rewrite Hval, Hhead, <- Hcat.
  destruct groups as [|g gs]; [reflexivity|].
  destruct g as [|l g]; simpl empty_head; cbn iota.
  - simpl in Htail. simpl concat.
    assert (Hgs : gs <> []).
    { rewrite <- Hcat in Hlast. destruct gs; [|done].
      destruct (kept_lines lines) eqn:Hk.
      - clear Hlast. simpl in Hhead. done.
      - simpl in Hcat. done. }
    change (map (join nl) ([] :: gs)) with ([] :: map (join nl) gs).
    rewrite join_cons. destruct gs as [|g' gs']; [done|].
    change (truthy (map (join nl) (g' :: gs'))) with true. cbn iota.
    rewrite join_groups by done. reflexivity.
  - change ([] ++ ?x) with x. apply join_groups. by constructor.
Qed.

Lemma numbered_succ (prefix : str) (n : nat) :
  numbered prefix (S n)
  = numbered prefix n ++ [prefix ++ lit " " ++ str_of_int (Z.of_nat n + 1)].
Proof.
  unfold numbered. rewrite seq_S, List.map_app.
  replace (Z.of_nat n + 1) with (Z.of_nat (1 + n)) by lia. reflexivity.
Qed.

Lemma flush_names prefix (fs : list field) (b : list str) :
  map fst fs = numbered prefix (length fs) ->
  map fst (flush prefix fs b) = numbered prefix (length (flush prefix fs b)).
Proof.
  intros Hfs. unfold flush. rewrite List.map_app, length_app. simpl.
  rewrite Nat.add_1_r, numbered_succ. f_equal. exact Hfs.
Qed.

Lemma chunk_loop_names prefix (ls : list str) :
  map fst (fields (chunk_loop prefix ls))
  = numbered prefix (length (fields (chunk_loop prefix ls))).
Proof.
  induction ls as [|l ls IH] using rev_ind; [reflexivity|].
  rewrite chunk_loop_snoc. unfold chunk_step.
  destruct (negb _); [done|]. destruct (_ <? _); [|done].
  simpl. by apply flush_names.
Qed.

(** The i-th field (from 1) is named [f"{prefix} {i}"]. *)
Lemma chunk_field_names (lines : list str) (prefix : str) :
  map fst (chunk_lines_into_fields lines prefix)
  = numbered prefix (length (chunk_lines_into_fields lines prefix)).
Proof.
  unfold chunk_lines_into_fields. cbv zeta.
  destruct (truthy _).
  - apply flush_names, chunk_loop_names.
  - apply chunk_loop_names.
Qed.

(** The buffer left when the input ends is emitted: the last kept line ends
    the value of the last field. *)
Lemma chunk_last_flushed (lines : list str) (prefix : str) (ks : list str) (l : str) :
  kept_lines lines = ks ++ [l] ->
  exists fs name b,
    chunk_lines_into_fields lines prefix = fs ++ [(name, join nl (b ++ [l]))]
    /\ exists ks', ks = ks' ++ b.
Proof.
  intros Hk.
  destruct (chunk_fields_groups lines prefix)
    as (groups & Hval & Hcat & _ & _ & _ & Hlast).
  destruct Hlast as (gs & b & -> & Hb); [by rewrite Hk; destruct ks|].
  rewrite concat_app in Hcat. simpl in Hcat. rewrite app_nil_r, Hk in Hcat.
  destruct (exists_last Hb) as (b' & l' & ->).
  rewrite app_assoc in Hcat. apply app_inj_tail in Hcat as [Hks ->].
  rewrite List.map_app in Hval. simpl in Hval.
  apply List.map_eq_app in Hval as (fs & last_f & Hc & _ & Hv).
  apply List.map_eq_cons in Hv as ([name v] & rest & -> & Hv & Hrest).
  apply List.map_eq_nil in Hrest as ->. simpl in Hv. subst v.
  exists fs, name, b'. split; [done|]. by exists (concat gs).
Qed.

(** C1: no field value is longer than 1024 characters.  The source does not
    hold this: a line of 1025 characters after a short one comes out as a
    field of its own, 1025 characters long. *)
Theorem chunk_value_exceeds_limit :
  chunk_lines_into_fields [lit "ok"; long_line] (lit "Summary")
  = [(lit "Summary 1", lit "ok"); (lit "Summary 2", long_line)]
  /\ EMBED_FIELD_LIMIT < len long_line.
Proof. split; vm_compute; reflexivity. Qed.

(** C4: the field values joined by newlines are the kept lines joined by
    newlines, the fields are numbered from 1 and the last buffer is emitted.
    The first part fails on the source when the first kept line is longer
    than a field: the empty buffer is closed into a field of its own, and the
    joined values start with a newline the lines do not have. *)
Theorem chunk_join_stray_newline :
  chunk_lines_into_fields [long_line] (lit "Summary")
  = [(lit "Summary 1", []); (lit "Summary 2", long_line)]
  /\ kept_lines [long_line] = [long_line]
  /\ join nl (map snd (chunk_lines_into_fields [long_line] (lit "Summary")))
     = nl ++ long_line
  /\ join nl (map snd (chunk_lines_into_fields [long_line] (lit "Summary")))
     <> join nl (kept_lines [long_line]).
Proof.
  split_and!; try (vm_compute; reflexivity).
  rewrite chunk_values_join.
  change (kept_lines [long_line]) with [long_line]. vm_compute. discriminate.
Qed.

(** What does hold of the joined values, the names and the last buffer for
    every input whose first kept line fits a field. *)
Lemma chunk_fields_faithful (lines : list str) (prefix : str) :
  oversize_head (kept_lines lines) = false ->
  join nl (map snd (chunk_lines_into_fields lines prefix))
  = join nl (kept_lines lines)
  /\ map fst (chunk_lines_into_fields lines prefix)
     = numbered prefix (length (chunk_lines_into_fields lines prefix))
  /\ (forall ks l, kept_lines lines = ks ++ [l] ->
      exists fs name b,
        chunk_lines_into_fields lines prefix = fs ++ [(name, join nl (b ++ [l]))]).
Proof.
  intros Hhead. split_and!.
  - by rewrite chunk_values_join, Hhead.
  - apply chunk_field_names.
  - intros ks l Hk.
    destruct (chunk_last_flushed lines prefix ks l Hk) as (fs & name & b & Hc & _).
    by exists fs, name, b.
Qed.

(** ** Computations with a trace *)

Lemma bind_eq {A B} (m : M A) (k : A -> M B) :
  bind m k
  = match m.2 with
    | Ok a => (m.1 ++ (k a).1, (k a).2)
    | Raise e => (m.1, Raise e)
    end.
Proof. destruct m as [t [a|e]]; simpl; [|done]. by destruct (k a). Qed.

Lemma bind_trace {A B} (m : M A) (k : A -> M B) (ev : event) :
  ev ∈ (bind m k).1 -> ev ∈ m.1 \/ exists a, m.2 = Ok a /\ ev ∈ (k a).1.
Proof.
  rewrite bind_eq. destruct m as [t [a|e]]; simpl; [|by left].
  rewrite elem_of_app. intros [?|?]; [by left|right; by exists a].
Qed.

Lemma bind_ok {A B} (m : M A) (k : A -> M B) (t : list event) (b : B) :
  bind m k = (t, Ok b) ->
  exists a t1 t2, m = (t1, Ok a) /\ k a = (t2, Ok b) /\ t = t1 ++ t2.
Proof.
  destruct m as [t1 [a|e]]; simpl; [|done].
  destruct (k a) as [t2 r] eqn:Hk. intros [= <- ->]. by exists a, t1, t2.
Qed.

(** ** The history scanner *)

Lemma startswith_spec (s pre : str) :
  startswith s pre = true <-> exists post, s = pre ++ post.
Proof.
  revert s. induction pre as [|p pre IH]; intros s; simpl.
  - split; [by exists s|done].
  - destruct s as [|c s]; [split; [done|by intros [? ?]]|].
    rewrite andb_true_iff, N.eqb_eq, IH. split.
    + intros [-> [post ->]]. by exists post.
    + intros [post Heq]. injection Heq as -> ->. eauto.
Qed.

Lemma contains_spec (haystack needle : str) :
  contains haystack needle = true <-> occurs_in needle haystack.
Proof.
  unfold occurs_in. induction haystack as [|c h IH]; simpl.
  - rewrite orb_false_r, startswith_spec. split.
    + intros [post ->]. by exists [], post.
    + intros (pre & post & Heq). destruct pre; [by exists post|done].
  - rewrite orb_true_iff, IH, startswith_spec. split.
    + intros [[post Heq]|(pre & post & ->)].
      * exists [], post. by rewrite Heq.
      * by exists (c :: pre), post.
    + intros ([|c' pre] & post & Heq).
      * left. by exists post.
      * right. injection Heq as -> ->. by exists pre, post.
Qed.

Lemma user_in_spec (u : User) (us : list User) : user_in u us = true <-> u ∈ us.
Proof.
  unfold user_in. rewrite existsb_exists. split.
  - intros (v & Hin & Heq). apply Z.eqb_eq in Heq.
    destruct u, v. simpl in Heq. subst. by apply list_elem_of_In.
  - intros Hin. exists u. split; [by apply list_elem_of_In|apply Z.eqb_refl].
Qed.

Lemma thread_counts_eq (u : User) (msg : Message) :
  thread_counts u msg = channel_counts u msg.
Proof.
  unfold thread_counts, channel_counts.
  destruct (user_in _ _); [done|]. simpl. by destruct (_ || _).
Qed.

Lemma collect_hits_spec (counts : Message -> bool) (it : history_iter)
    (hits : list Message) :
  collect_hits counts it hits
  = (hits ++ List.filter counts (yielded it), ending it).
Proof.
  revert hits. induction it as [|m rest IH|e]; intros hits; simpl.
  - by rewrite app_nil_r.
  - rewrite IH. destruct (counts m); [|done]. by rewrite <- app_assoc.
  - by rewrite app_nil_r.
Qed.

Lemma is_Forbidden_HTTP (e : exn) : is_Forbidden e = true -> is_HTTPException e = true.
Proof. by destruct e. Qed.

(** The per-channel scan: one call to [history]; the hits are the yielded
    messages that count, also when the iteration ends in an exception the
    scan catches. *)
Lemma search_channel_eq (ch : TextChannel) (u : User) (after_dt : option datetime)
    (limit : Z) :
  _search_channel_for_mentions ch u after_dt limit
  = ([EvChannelHistory (ch_id ch) (history_kwargs after_dt limit)],
     match ending (ch_history ch (history_kwargs after_dt limit)) with
     | Some e =>
         if is_HTTPException e
         then Ok (direct_hits u (history_kwargs after_dt limit) ch)
         else Raise e
     | None => Ok (direct_hits u (history_kwargs after_dt limit) ch)
     end).
Proof.
  unfold _search_channel_for_mentions, direct_hits. cbv zeta.
  rewrite collect_hits_spec. simpl.
  destruct (ending _) as [e|]; [|done].
  by destruct e.
Qed.

Lemma yielded_quiet (it : history_iter) : yielded (quiet it) = yielded it.
Proof. induction it; simpl; congruence. Qed.

Lemma ending_quiet (it : history_iter) : ending (quiet it) = None.
Proof. by induction it. Qed.

(** The per-thread loop, when every exception is one the scan catches. *)
Lemma threads_loop_eq (u : User) (after_dt : option datetime) (limit : Z)
    (ths : list Thread) (results : list (Thread * list Message)) :
  threads_benign (history_kwargs after_dt limit) ths ->
  threads_loop u after_dt limit ths results
  = (map (fun th => EvThreadHistory (th_id th) (history_kwargs after_dt limit))
       (List.filter (fun th => negb (locked th)) ths),
     Ok (results
         ++ concat (map (thread_result u (history_kwargs after_dt limit)) ths))).
Proof.
  intros Hben. revert results.
  induction Hben as [|th ths Hth Hths IH]; intros results; simpl.
  - by rewrite app_nil_r.
  - unfold thread_result at 1. destruct (locked th) eqn:Hl; simpl.
    + apply IH.
    + rewrite collect_hits_spec. simpl.
      destruct (ending _) as [e|] eqn:He.
      * rewrite (Hth eq_refl e eq_refl), orb_true_r, IH. done.
      * rewrite IH. destruct (truthy _); [|done]. by rewrite <- app_assoc.
Qed.

Lemma counts_mentioned (u : User) (msg : Message) :
  channel_counts u msg = true <-> mentioned u msg.
Proof.
  unfold channel_counts, mentioned. rewrite <- user_in_spec.
  rewrite <- !contains_spec. fold (mention_plain u) (mention_nick u).
  destruct (user_in u (mentions msg)); [by split; [left|]|].
  destruct (contains _ (mention_plain u)); simpl; [by split; [right; left|]|].
  destruct (contains _ (mention_nick u)); [by split; [right; right|]|].
  split; [done|]. by intros [?|[?|?]].
Qed.

Lemma filter_thread_counts (u : User) (ms : list Message) :
  List.filter (thread_counts u) ms = List.filter (channel_counts u) ms.
Proof.
  induction ms as [|m ms IH]; [done|]. simpl. by rewrite thread_counts_eq, IH.
Qed.

(** The per-thread scan returns only when no unlocked thread ended in an
    exception it does not catch. *)
Lemma threads_loop_returns (u : User) (after_dt : option datetime) (limit : Z)
    (ths : list Thread) (results rs : list (Thread * list Message)) :
  (threads_loop u after_dt limit ths results).2 = Ok rs ->
  threads_benign (history_kwargs after_dt limit) ths.
Proof.
  revert results. induction ths as [|th ths IH]; intros results; cbn [threads_loop].
  - constructor.
  - destruct (locked th) eqn:Hl.
    + intros Hr. constructor; [by rewrite Hl|by eapply IH].
    + rewrite bind_eq. unfold emit. cbn [fst snd]. rewrite collect_hits_spec.
      cbn [app]. destruct (ending _) as [e|] eqn:He.
      * destruct (is_Forbidden e || is_HTTPException e) eqn:Hc; [|done].
        intros Hr. constructor; [|by eapply IH].
        intros _ e' He'. rewrite He in He'. injection He' as <-.
        apply orb_true_iff in Hc as [Hc|Hc]; [by apply is_Forbidden_HTTP|done].
      * intros Hr. constructor; [|by eapply IH].
        intros _ e' He'. by rewrite He in He'.
Qed.

(** What the per-thread scan returns for one thread. *)
Lemma thread_result_spec (u : User) (kw : kwargs) (th th' : Thread)
    (msgs : list Message) :
  (th', msgs) ∈ thread_result u kw th
  <-> th' = th /\ locked th = false /\ ending (th_history th kw) = None
      /\ msgs = List.filter (channel_counts u) (yielded (th_history th kw))
      /\ msgs <> [].
Proof.
  unfold thread_result. rewrite filter_thread_counts.
  destruct (locked th); [split; [by intros ?%elem_of_nil|by intros (_ & ? & _)]|].
  destruct (ending _); [split; [by intros ?%elem_of_nil|by intros (_ & _ & ? & _)]|].
  destruct (truthy _) eqn:Hh.
  - apply truthy_true in Hh. rewrite list_elem_of_singleton. split.
    + by intros [= -> ->].
    + by intros (-> & _ & _ & -> & _).
  - apply truthy_false in Hh. split; [by intros ?%elem_of_nil|].
    intros (_ & _ & _ & -> & Hne). by rewrite Hh in Hne.
Qed.

(** C6: a message counts as a mention of the user exactly when the user is
    in its mention list, or its text contains [<@id>], or its text contains
    [<@!id>].  The per-channel scan returns the message exactly when the
    history of the channel yielded it and it mentions the user; the
    per-thread scan, with the same predicate, returns it for a thread
    exactly when the thread is an unlocked thread of the channel whose
    history ended without error, yielded it, and it mentions the user.
    Both scans return when the histories end normally or in an error they
    catch. *)
Theorem mention_counted_iff (u : User) (msg : Message) :
  (channel_counts u msg = true <-> mentioned u msg)
  /\ thread_counts u msg = channel_counts u msg
  /\ (forall ch after_dt limit,
        (ends_benign (ch_history ch (history_kwargs after_dt limit)) ->
         exists hits,
           (_search_channel_for_mentions ch u after_dt limit).2 = Ok hits)
        /\ forall hits,
             (_search_channel_for_mentions ch u after_dt limit).2 = Ok hits ->
             (msg ∈ hits
              <-> msg ∈ yielded (ch_history ch (history_kwargs after_dt limit))
                  /\ mentioned u msg))
  /\ (forall ch after_dt limit,
        (threads_benign (history_kwargs after_dt limit) (threads ch) ->
         exists results,
           (_search_active_threads_for_mentions ch u after_dt limit).2 = Ok results)
        /\ forall results th,
             (_search_active_threads_for_mentions ch u after_dt limit).2 = Ok results ->
             ((exists msgs, (th, msgs) ∈ results /\ msg ∈ msgs)
              <-> th ∈ threads ch /\ locked th = false
                  /\ ending (th_history th (history_kwargs after_dt limit)) = None
                  /\ msg ∈ yielded (th_history th (history_kwargs after_dt limit))
                  /\ mentioned u msg)).
Proof.
  split; [apply counts_mentioned|]. split; [apply thread_counts_eq|]. split.
  - intros ch after_dt limit. rewrite search_channel_eq. cbn [snd]. split.
    + intros Hb. destruct (ending _) as [e|] eqn:He; [|by eexists].
      rewrite (Hb e He). by eexists.
    + intros hits Hr.
      assert (hits = direct_hits u (history_kwargs after_dt limit) ch) as ->.
      { destruct (ending _) as [e|]; [destruct (is_HTTPException e)|];
          by inversion Hr. }
      unfold direct_hits. rewrite list_elem_of_In, filter_In, <- list_elem_of_In.
      rewrite counts_mentioned. tauto.
  - intros ch after_dt limit. unfold _search_active_threads_for_mentions. split.
    + intros Hb. rewrite threads_loop_eq by done. by eexists.
    + intros results th Hr.
      pose proof (threads_loop_returns _ _ _ _ _ _ Hr) as Hb.
      rewrite threads_loop_eq in Hr by done. cbn [snd app] in Hr.
      injection Hr as <-. split.
      * intros (msgs & Hin & Hm).
        apply list_elem_of_In, in_concat in Hin as (r & Hr & Hin).
        apply in_map_iff in Hr as (th' & <- & Hth').
        apply list_elem_of_In, thread_result_spec in Hin
          as (-> & Hl & He & -> & _).
        apply list_elem_of_In, filter_In in Hm as [Hy Hc].
        split_and!; try done; [by apply list_elem_of_In..|by apply counts_mentioned].
      * intros (Hth & Hl & He & Hy & Hm).
        exists (List.filter (channel_counts u)
                  (yielded (th_history th (history_kwargs after_dt limit)))).
        assert (Hin : msg ∈ List.filter (channel_counts u)
                  (yielded (th_history th (history_kwargs after_dt limit)))).
        { apply list_elem_of_In, filter_In. split; [by apply list_elem_of_In|].
          by apply counts_mentioned. }
        split; [|done].
        apply list_elem_of_In, in_concat. eexists. split.
        -- apply in_map_iff. exists th. split; [done|by apply list_elem_of_In].
        -- apply list_elem_of_In, thread_result_spec. split_and!; try done.
           intros Hnil. rewrite Hnil in Hin. by apply elem_of_nil in Hin.
Qed.

Lemma mention_counted_iff_witness :
  (exists hits, (_search_channel_for_mentions ch_partial alice None 200).2 = Ok hits)
  /\ (m_structured ∈ [m_structured]
      <-> m_structured ∈ yielded (ch_history ch_partial (history_kwargs None 200))
          /\ mentioned alice m_structured)
  /\ ((exists msgs, (th_busy, msgs) ∈ [(th_busy, [m_textual])] /\ m_textual ∈ msgs)
      <-> th_busy ∈ threads ch_threads /\ locked th_busy = false
          /\ ending (th_history th_busy (history_kwargs None 100)) = None
          /\ m_textual ∈ yielded (th_history th_busy (history_kwargs None 100))
          /\ mentioned alice m_textual).
Proof.
  split; [|split].
  - apply (proj1 (proj1 (proj2 (proj2 (mention_counted_iff alice m_structured)))
                    ch_partial None 200)).
    intros e He. vm_compute in He. injection He as <-. reflexivity.
  - exact (proj2 (proj1 (proj2 (proj2 (mention_counted_iff alice m_structured)))
                    ch_partial None 200) [m_structured] eq_refl).
  - exact (proj2 (proj2 (proj2 (proj2 (mention_counted_iff alice m_textual)))
                    ch_threads None 100) [(th_busy, [m_textual])] th_busy eq_refl).
Defined.

Lemma threads_loop_trace (u : User) (after_dt : option datetime) (limit : Z)
    (ths : list Thread) (results : list (Thread * list Message)) (ev : event) :
  ev ∈ (threads_loop u after_dt limit ths results).1 ->
  exists th, th ∈ ths /\ locked th = false
             /\ ev = EvThreadHistory (th_id th) (history_kwargs after_dt limit).
Proof.
  revert results. induction ths as [|th ths IH]; intros results; cbn [threads_loop].
  - by intros ?%elem_of_nil.
  - destruct (locked th) eqn:Hl.
    + intros (th' & ? & ?)%IH. exists th'. split; [by right|done].
    + intros [Hev|(_ & _ & Hev)]%bind_trace.
      * simpl in Hev. apply list_elem_of_singleton in Hev as ->.
        exists th. split; [by left|done].
      * destruct (collect_hits _ _ _) as [hits [e|]].
        -- destruct (_ || _).
           ++ apply IH in Hev as (th' & ? & ?). exists th'. split; [by right|done].
           ++ by apply elem_of_nil in Hev.
        -- apply IH in Hev as (th' & ? & ?). exists th'. split; [by right|done].
Qed.

(** C7: the per-thread scan never asks a locked thread for its history,
    returns only threads with at least one hit, and a thread whose history
    ends in a permission or transport error adds nothing while the threads
    after it are still scanned. *)
Theorem thread_scan_spec (ch : TextChannel) (u : User) (after_dt : option datetime)
    (limit : Z) :
  (forall ev,
     ev ∈ (_search_active_threads_for_mentions ch u after_dt limit).1 ->
     exists th, th ∈ threads ch /\ locked th = false
                /\ ev = EvThreadHistory (th_id th) (history_kwargs after_dt limit))
  /\ (threads_benign (history_kwargs after_dt limit) (threads ch) ->
      _search_active_threads_for_mentions ch u after_dt limit
      = (map (fun th => EvThreadHistory (th_id th) (history_kwargs after_dt limit))
           (List.filter (fun th => negb (locked th)) (threads ch)),
         Ok (concat (map (thread_result u (history_kwargs after_dt limit))
                       (threads ch))))
      /\ forall th hits,
           (th, hits) ∈ concat (map (thread_result u (history_kwargs after_dt limit))
                                  (threads ch)) ->
           th ∈ threads ch /\ locked th = false /\ hits <> []
           /\ ending (th_history th (history_kwargs after_dt limit)) = None
           /\ hits = List.filter (channel_counts u)
                       (yielded (th_history th (history_kwargs after_dt limit)))).
Proof.
  split; [intros ev; apply threads_loop_trace|].
  intros Hben. split.
  - unfold _search_active_threads_for_mentions. by rewrite threads_loop_eq.
  - intros th hits Hin.
    apply list_elem_of_In, in_concat in Hin as (r & Hr & Hin).
    apply in_map_iff in Hr as (th' & <- & Hth').
    unfold thread_result in Hin.
    destruct (locked th') eqn:Hl; [done|].
    destruct (ending _) eqn:He; [done|].
    destruct (truthy _) eqn:Hh; [|done].
    destruct Hin as [Heq|[]]. injection Heq as -> <-.
    split_and!; try done.
    + by apply list_elem_of_In.
    + by apply truthy_true.
    + clear. induction (yielded _) as [|m ms IH]; [done|]. simpl.
      by rewrite thread_counts_eq, IH.
Qed.

Lemma thread_scan_spec_witness :
  threads_benign (history_kwargs None 100) (threads ch_threads)
  /\ _search_active_threads_for_mentions ch_threads alice None 100
     = ([EvThreadHistory 22 (history_kwargs None 100);
         EvThreadHistory 23 (history_kwargs None 100);
         EvThreadHistory 24 (history_kwargs None 100)],
        Ok [(th_busy, [m_textual])]).
Proof.
  assert (Hben : threads_benign (history_kwargs None 100) (threads ch_threads)).
  { repeat constructor; simpl; intros; try discriminate;
      match goal with H : Some _ = Some _ |- _ => by injection H as <- end. }
  split; [exact Hben|].
  exact (proj1 (proj2 (thread_scan_spec ch_threads alice None 100) Hben)).
Defined.

(** A swallowed error ends the scan as a quiet end of the history does. *)
Lemma search_channel_quiet (ch : TextChannel) (u : User) (after_dt : option datetime)
    (limit : Z) (e : exn) :
  ending (ch_history ch (history_kwargs after_dt limit)) = Some e ->
  is_HTTPException e = true ->
  _search_channel_for_mentions ch u after_dt limit
  = _search_channel_for_mentions (quiet_channel ch) u after_dt limit.
Proof.
  intros He Hhttp. rewrite !search_channel_eq. simpl.
  rewrite He, Hhttp, ending_quiet. unfold direct_hits. simpl.
  by rewrite yielded_quiet.
Qed.

(** C2: the code does not do what the claim says.  A channel whose history
    yields a mention and then raises a transport error gives one hit, not
    zero: [hits] is created before the [try] and returned after it.  The
    per-thread scan, given the same history in a thread, keeps [th_hits]
    inside the [try] and returns nothing for it.  So a scan that ends in
    such an error does not always return zero hits. *)
Theorem channel_scan_error_not_zero_hits :
  ending (ch_history ch_partial (history_kwargs None 200)) = Some HTTPException
  /\ _search_channel_for_mentions ch_partial alice None 200
     = ([EvChannelHistory 10 (history_kwargs None 200)], Ok [m_structured])
  /\ _search_active_threads_for_mentions ch_sibling alice None 200
     = ([EvThreadHistory 25 (history_kwargs None 200)], Ok [])
  /\ ~ (forall (ch : TextChannel) (u : User) (after_dt : option datetime)
          (limit : Z) (e : exn),
          ending (ch_history ch (history_kwargs after_dt limit)) = Some e ->
          is_HTTPException e = true ->
          (_search_channel_for_mentions ch u after_dt limit).2 = Ok []).
Proof.
  split; [reflexivity|]. split; [reflexivity|]. split; [reflexivity|].
  intros Hclaim.
  specialize (Hclaim ch_partial alice None 200 HTTPException eq_refl eq_refl).
  vm_compute in Hclaim. discriminate.
Qed.

(** X29: a permission or transport error in the history of a channel does
    not abort the scan.  The scan of that channel returns, with the mentions
    yielded before the error, and the loop over the channels goes on as if
    that history had ended there: with no hit, straight to the next
    channel. *)
Theorem channel_scan_error_swallowed (ch : TextChannel) (u : User)
    (after_dt : option datetime) (limit : Z) (e : exn) :
  ending (ch_history ch (history_kwargs after_dt limit)) = Some e ->
  is_HTTPException e = true ->
  _search_channel_for_mentions ch u after_dt limit
  = ([EvChannelHistory (ch_id ch) (history_kwargs after_dt limit)],
     Ok (List.filter (channel_counts u)
           (yielded (ch_history ch (history_kwargs after_dt limit)))))
  /\ (forall include_threads cat rest hdr st,
        channels_loop u after_dt limit include_threads cat (ch :: rest) hdr st
        = channels_loop u after_dt limit include_threads cat
            (quiet_channel ch :: rest) hdr st)
  /\ (List.filter (channel_counts u)
        (yielded (ch_history ch (history_kwargs after_dt limit))) = [] ->
      forall include_threads cat rest hdr st,
        channels_loop u after_dt limit include_threads cat (ch :: rest) hdr st
        = (EvChannelHistory (ch_id ch) (history_kwargs after_dt limit)
             :: (channels_loop u after_dt limit include_threads cat rest hdr st).1,
           (channels_loop u after_dt limit include_threads cat rest hdr st).2)).
Proof.
  intros He Hhttp. split_and!.
  - rewrite search_channel_eq, He, Hhttp. done.
  - intros. simpl. unfold channel_body.
    by rewrite (search_channel_quiet ch u after_dt limit e).
  - intros Hnone. intros. simpl. unfold channel_body.
    rewrite search_channel_eq, He, Hhttp. unfold direct_hits. rewrite Hnone.
    simpl. by destruct (channels_loop _ _ _ _ _ _ _ _) as [t r].
Qed.

Lemma channel_scan_error_swallowed_witness :
  ending (ch_history ch_partial (history_kwargs None 200)) = Some HTTPException
  /\ is_HTTPException HTTPException = true
  /\ _search_channel_for_mentions ch_partial alice None 200
     = ([EvChannelHistory 10 (history_kwargs None 200)], Ok [m_structured]).
Proof.
  split_and!; [reflexivity..|].
  exact (proj1 (channel_scan_error_swallowed ch_partial alice None 200
                  HTTPException eq_refl eq_refl)).
Defined.

(** ** The collection loop of [find-collabs] *)


(** What one channel adds to the trace: its own history call, and calls for
    its unlocked threads when threads are included and it had a direct
    hit. *)
Lemma channel_body_trace (u : User) (after_dt : option datetime) (limit : Z)
    (include_threads : bool) (cat : CategoryChannel) (ch : TextChannel)
    (hdr : bool) (st : tally) (ev : event) :
  ev ∈ (channel_body u after_dt limit include_threads cat ch hdr st).1 ->
  ev = EvChannelHistory (ch_id ch) (history_kwargs after_dt limit)
  \/ (include_threads = true
      /\ direct_hits u (history_kwargs after_dt limit) ch <> []
      /\ exists th, th ∈ threads ch /\ locked th = false
                    /\ ev = EvThreadHistory (th_id th)
                              (history_kwargs after_dt (Z.min limit 100))).
Proof.
  unfold channel_body. intros [Hev|(hits & Hhits & Hev)]%bind_trace.
  - rewrite search_channel_eq in Hev. simpl in Hev.
    apply list_elem_of_singleton in Hev. by left.
  - right. rewrite search_channel_eq in Hhits. simpl in Hhits.
    assert (hits = direct_hits u (history_kwargs after_dt limit) ch) as ->.
    { destruct (ending _) as [e|]; [destruct (is_HTTPException e)|]; congruence. }
    destruct (truthy _) eqn:Hne; [|by apply elem_of_nil in Hev].
    apply truthy_true in Hne.
    apply bind_trace in Hev as [Hev|(st3 & _ & Hev)].
    + destruct include_threads; [|by apply elem_of_nil in Hev].
      apply bind_trace in Hev as [Hev|(? & _ & Hev)]; [|by apply elem_of_nil in Hev].
      apply threads_loop_trace in Hev. done.
    + destruct (_ <=? _); by apply elem_of_nil in Hev.
Qed.

Lemma channels_loop_trace (u : User) (after_dt : option datetime) (limit : Z)
    (include_threads : bool) (cat : CategoryChannel) (chs : list TextChannel)
    (hdr : bool) (st : tally) (ev : event) :
  ev ∈ (channels_loop u after_dt limit include_threads cat chs hdr st).1 ->
  exists ch, ch ∈ chs
    /\ (ev = EvChannelHistory (ch_id ch) (history_kwargs after_dt limit)
        \/ (include_threads = true
            /\ direct_hits u (history_kwargs after_dt limit) ch <> []
            /\ exists th, th ∈ threads ch /\ locked th = false
                          /\ ev = EvThreadHistory (th_id th)
                                    (history_kwargs after_dt (Z.min limit 100)))).
Proof.
  revert hdr st. induction chs as [|ch chs IH]; intros hdr st; cbn [channels_loop].
  - by intros ?%elem_of_nil.
  - intros [Hev|([[st' hdr'] broke] & _ & Hev)]%bind_trace.
    + exists ch. split; [by left|]. by eapply channel_body_trace.
    + destruct broke; [by apply elem_of_nil in Hev|].
      apply IH in Hev as (ch' & ? & ?). exists ch'. split; [by right|done].
Qed.

Lemma categories_loop_trace (u : User) (after_dt : option datetime) (limit : Z)
    (include_threads : bool) (cats : list CategoryChannel) (st : tally) (ev : event) :
  ev ∈ (categories_loop u after_dt limit include_threads cats st).1 ->
  exists cat ch, cat ∈ cats /\ ch ∈ text_channels cat
    /\ (ev = EvChannelHistory (ch_id ch) (history_kwargs after_dt limit)
        \/ (include_threads = true
            /\ direct_hits u (history_kwargs after_dt limit) ch <> []
            /\ exists th, th ∈ threads ch /\ locked th = false
                          /\ ev = EvThreadHistory (th_id th)
                                    (history_kwargs after_dt (Z.min limit 100)))).
Proof.
  revert st. induction cats as [|cat cats IH]; intros st; cbn [categories_loop].
  - by intros ?%elem_of_nil.
  - intros [Hev|(st' & _ & Hev)]%bind_trace.
    + apply channels_loop_trace in Hev as (ch & ? & ?).
      exists cat, ch. split; [by left|done].
    + destruct (_ <=? _); [by apply elem_of_nil in Hev|].
      apply IH in Hev as (cat' & ch & ? & ?). exists cat', ch. split; [by right|done].
Qed.



(** ** The line cap *)

Lemma category_line_not_note (cat : CategoryChannel) :
  category_line cat <> truncation_note.
Proof. intros H. apply (f_equal head) in H. vm_compute in H. discriminate. Qed.

Lemma channel_line_not_note (ch : TextChannel) (hits : list Message) :
  channel_line ch hits <> truncation_note.
Proof. intros H. apply (f_equal head) in H. vm_compute in H. discriminate. Qed.

Lemma thread_line_not_note (th : Thread) (msgs : list Message) :
  thread_line th msgs <> truncation_note.
Proof. intros H. apply (f_equal head) in H. vm_compute in H. discriminate. Qed.

Lemma fold_add_thread_lines (hits : list (Thread * list Message)) (st : tally) :
  lines (fold_left add_thread hits st)
  = lines st ++ map (fun h => thread_line h.1 h.2) hits.
Proof.
  revert st. induction hits as [|h hits IH]; intros st; simpl.
  - by rewrite app_nil_r.
  - rewrite IH. simpl. by rewrite <- app_assoc.
Qed.

Lemma thread_lines_no_note (hits : list (Thread * list Message)) :
  truncation_note ∉ map (fun h => thread_line h.1 h.2) hits.
Proof.
  intros Hin. apply list_elem_of_In, in_map_iff in Hin as (h & Hh & _).
  by apply thread_line_not_note in Hh.
Qed.

Lemma ret_ok {A} (a b : A) (t : list event) : ret a = (t, Ok b) -> a = b /\ t = [].
Proof. by intros [= <- ->]. Qed.

(** What the body of the channel loop does to the lines. *)
Lemma channel_body_lines (u : User) (after_dt : option datetime) (limit : Z)
    (include_threads : bool) (cat : CategoryChannel) (ch : TextChannel)
    (hdr : bool) (st : tally) (t : list event) (st' : tally) (hdr' broke : bool) :
  channel_body u after_dt limit include_threads cat ch hdr st
  = (t, Ok (st', hdr', broke)) ->
  truncation_note ∉ lines st ->
  if broke then capped st'
  else (truncation_note ∉ lines st')
       /\ (len (lines st) < MAX_LINES -> len (lines st') < MAX_LINES).
Proof.
  unfold channel_body. intros (hits & t1 & t2 & _ & Hk & _)%bind_ok Hnote.
  destruct (truthy hits).
  2:{ apply ret_ok in Hk as [[= <- <- <-] _]. done. }
  apply bind_ok in Hk as (st3 & ta & tb & H3 & Hret & _).
  assert (Hst3 : truncation_note ∉ lines st3).
  { assert (Hbase : truncation_note
              ∉ (if negb hdr then lines st ++ [category_line cat] else lines st)
                ++ [channel_line ch hits]).
    { rewrite elem_of_app, list_elem_of_singleton.
      intros [Hin|Heq]; [|by eapply channel_line_not_note].
      destruct (negb hdr); [|done].
      apply elem_of_app in Hin as [?|Heq%list_elem_of_singleton]; [done|].
      by eapply category_line_not_note. }
    destruct include_threads.
    - apply bind_ok in H3 as (ths & ? & ? & _ & [<- _]%ret_ok & _).
      rewrite fold_add_thread_lines. simpl. rewrite elem_of_app.
      intros [?|?]; [done|]. by eapply thread_lines_no_note.
    - by apply ret_ok in H3 as [<- _]. }
  destruct (MAX_LINES <=? len (lines st3)) eqn:Hcap.
  - apply ret_ok in Hret as [[= <- <- <-] _].
    exists (lines st3). split_and!; [done| |done]. by apply Z.leb_le.
  - apply ret_ok in Hret as [[= <- <- <-] _].
    split; [done|]. intros _. by apply Z.leb_gt.
Qed.

Lemma capped_over (st : tally) : capped st -> MAX_LINES <= len (lines st).
Proof.
  intros (body & -> & Hlen & _). rewrite len_app. unfold len in *. simpl. lia.
Qed.

Lemma channels_loop_cap (u : User) (after_dt : option datetime) (limit : Z)
    (include_threads : bool) (cat : CategoryChannel) (chs : list TextChannel)
    (hdr : bool) (st : tally) (t : list event) (st' : tally) :
  under_cap st ->
  channels_loop u after_dt limit include_threads cat chs hdr st = (t, Ok st') ->
  under_cap st' \/ capped st'.
Proof.
  revert hdr st t. induction chs as [|ch chs IH]; intros hdr st t Hst;
    cbn [channels_loop].
  - intros [<- _]%ret_ok. by left.
  - intros ([[s1 h1] broke] & t1 & t2 & Hbody & Hk & _)%bind_ok.
    apply channel_body_lines in Hbody; [|by destruct Hst].
    destruct broke.
    + apply ret_ok in Hk as [<- _]. by right.
    + destruct Hbody as [Hn Hl]. eapply IH; [|done]. split; [|done].
      apply Hl. by destruct Hst.
Qed.

Lemma categories_loop_cap (u : User) (after_dt : option datetime) (limit : Z)
    (include_threads : bool) (cats : list CategoryChannel)
    (st : tally) (t : list event) (st' : tally) :
  under_cap st ->
  categories_loop u after_dt limit include_threads cats st = (t, Ok st') ->
  under_cap st' \/ capped st'.
Proof.
  revert st t. induction cats as [|cat cats IH]; intros st t Hst;
    cbn [categories_loop].
  - intros [<- _]%ret_ok. by left.
  - intros (s1 & t1 & t2 & Hch & Hk & _)%bind_ok.
    destruct (channels_loop_cap _ _ _ _ _ _ _ _ _ _ Hst Hch) as [Hs1|Hs1].
    + destruct (_ <=? _).
      * apply ret_ok in Hk as [<- _]. by left.
      * by eapply IH.
    + pose proof (capped_over _ Hs1) as Hle. apply Z.leb_le in Hle.
      rewrite Hle in Hk. apply ret_ok in Hk as [<- _]. by right.
Qed.

Lemma bind_run {A B} (m : M A) (k : A -> M B) (a : A) (t1 t2 : list event)
    (r : outcome B) :
  m = (t1, Ok a) -> k a = (t2, r) -> bind m k = (t1 ++ t2, r).
Proof. intros -> Hk. simpl. by rewrite Hk. Qed.

(** Once a channel has broken out of the loop, the channels after it do not
    matter. *)
Lemma channels_loop_stop (u : User) (after_dt : option datetime) (limit : Z)
    (include_threads : bool) (cat : CategoryChannel) (chs1 chs2 : list TextChannel)
    (hdr : bool) (st : tally) (t : list event) (st' : tally) :
  under_cap st ->
  channels_loop u after_dt limit include_threads cat chs1 hdr st = (t, Ok st') ->
  MAX_LINES <= len (lines st') ->
  channels_loop u after_dt limit include_threads cat (chs1 ++ chs2) hdr st
  = (t, Ok st').
Proof.
  revert hdr st t. induction chs1 as [|ch chs1 IH]; intros hdr st t Hst;
    cbn [channels_loop app].
  - intros [<- _]%ret_ok Hle. destruct Hst as [Hlt _]. lia.
  - intros ([[s1 h1] broke] & t1 & t2 & Hbody & Hk & ->)%bind_ok Hle.
    eapply bind_run; [done|]. cbv beta iota.
    destruct broke; [done|].
    apply channel_body_lines in Hbody as [Hn Hl]; [|by destruct Hst].
    apply IH; [|done..]. split; [|done]. apply Hl. by destruct Hst.
Qed.

Lemma bind_ext {A B} (m : M A) (k k' : A -> M B) :
  (forall a, k a = k' a) -> bind m k = bind m k'.
Proof. intros Hk. destruct m as [t [a|e]]; simpl; [|done]. by rewrite Hk. Qed.

(** The header line is all the loop reads of the category. *)
Lemma channel_body_category (u : User) (after_dt : option datetime) (limit : Z)
    (include_threads : bool) (cat cat' : CategoryChannel) (ch : TextChannel)
    (hdr : bool) (st : tally) :
  category_line cat = category_line cat' ->
  channel_body u after_dt limit include_threads cat ch hdr st
  = channel_body u after_dt limit include_threads cat' ch hdr st.
Proof. intros Hline. unfold channel_body. by rewrite Hline. Qed.

Lemma channels_loop_category (u : User) (after_dt : option datetime) (limit : Z)
    (include_threads : bool) (cat cat' : CategoryChannel) (chs : list TextChannel)
    (hdr : bool) (st : tally) :
  category_line cat = category_line cat' ->
  channels_loop u after_dt limit include_threads cat chs hdr st
  = channels_loop u after_dt limit include_threads cat' chs hdr st.
Proof.
  intros Hline. revert hdr st.
  induction chs as [|ch chs IH]; intros hdr st; cbn [channels_loop]; [done|].
  rewrite (channel_body_category _ _ _ _ cat cat') by done.
  apply bind_ext. intros [[s1 h1] broke]. destruct broke; [done|apply IH].
Qed.

(** Once the cap is reached in a category, neither the channels after the
    one that reached it nor the categories after this one matter. *)
Lemma categories_loop_stop (u : User) (after_dt : option datetime) (limit : Z)
    (include_threads : bool) (cats1 : list CategoryChannel) (cat : CategoryChannel)
    (chs1 chs2 : list TextChannel) (cats2 : list CategoryChannel)
    (st : tally) (t : list event) (st' : tally) :
  under_cap st ->
  categories_loop u after_dt limit include_threads
    (cats1 ++ [with_channels cat chs1]) st = (t, Ok st') ->
  MAX_LINES <= len (lines st') ->
  categories_loop u after_dt limit include_threads
    (cats1 ++ with_channels cat (chs1 ++ chs2) :: cats2) st = (t, Ok st').
Proof.
  revert st t. induction cats1 as [|c cats1 IH]; intros st t Hst;
    cbn [categories_loop app].
  - intros (s1 & t1 & t2 & Hch & Hk & ->)%bind_ok Hle.
    assert (s1 = st' /\ t2 = []) as [-> ->].
    { destruct (_ <=? _); by apply ret_ok in Hk. }
    eapply bind_run.
    + cbn [text_channels with_channels] in *.
      rewrite (channels_loop_category _ _ _ _ _ (with_channels cat chs1)) by done.
      by apply channels_loop_stop.
    + apply Z.leb_le in Hle. by rewrite Hle.
  - intros (s1 & t1 & t2 & Hch & Hk & ->)%bind_ok Hle.
    eapply bind_run; [done|].
    destruct (MAX_LINES <=? len (lines s1)) eqn:Hcap; [done|].
    apply IH; [|done..].
    destruct (channels_loop_cap _ _ _ _ _ _ _ _ _ _ Hst Hch) as [?|Hc]; [done|].
    apply capped_over in Hc. apply Z.leb_gt in Hcap. lia.
Qed.

(** C10: when the lines reach the cap of 40 after a channel, the truncation
    note is appended, once, and the scan ends: the calls made and the lines
    handed to the formatter are the same whatever channels and categories
    follow the channel that reached the cap. *)
Theorem scan_stops_at_line_cap (invoker : User) (after_dt : option datetime)
    (per_channel_limit : Z) (include_threads : bool) :
  (forall cats t st,
     collect_results invoker after_dt per_channel_limit include_threads cats
     = (t, Ok st) ->
     under_cap st \/ capped st)
  /\ (forall cats1 cat chs1 chs2 cats2 t st,
        collect_results invoker after_dt per_channel_limit include_threads
          (cats1 ++ [with_channels cat chs1]) = (t, Ok st) ->
        MAX_LINES <= len (lines st) ->
        collect_results invoker after_dt per_channel_limit include_threads
          (cats1 ++ with_channels cat (chs1 ++ chs2) :: cats2) = (t, Ok st)
        /\ capped st).
Proof.
  assert (Hinit : under_cap {| total_hits := 0; lines := [] |}).
  { split; [done|]. by intros ?%elem_of_nil. }
  split.
  - intros cats t st Hrun. by eapply categories_loop_cap.
  - intros cats1 cat chs1 chs2 cats2 t st Hrun Hle. split.
    + by apply categories_loop_stop.
    + destruct (categories_loop_cap _ _ _ _ _ _ _ _ Hinit Hrun) as [[Hlt _]|?];
        [lia|done].
Qed.

Lemma scan_stops_at_line_cap_witness :
  collect_results alice None 200 true ([] ++ [with_channels cat_big [ch_crowded]])
  = (crowded_trace, Ok crowded_tally)
  /\ MAX_LINES <= len (lines crowded_tally)
  /\ collect_results alice None 200 true
       ([] ++ with_channels cat_big ([ch_crowded] ++ [ch_threads]) :: [cat_dev])
     = (crowded_trace, Ok crowded_tally)
  /\ capped crowded_tally.
Proof.
  assert (Hrun : collect_results alice None 200 true
                   ([] ++ [with_channels cat_big [ch_crowded]])
                 = (crowded_trace, Ok crowded_tally)).
  { vm_compute. reflexivity. }
  assert (Hle : MAX_LINES <= len (lines crowded_tally)).
  { vm_compute. discriminate. }
  split_and!; [exact Hrun|exact Hle|..];
    apply (proj2 (scan_stops_at_line_cap alice None 200 true)
             [] cat_big [ch_crowded] [ch_threads] [cat_dev]
             crowded_trace crowded_tally Hrun Hle).
Defined.

(** ** The category resolver *)

Lemma dedup_by_id_app (seen : gset Z) (xs ys : list CategoryChannel) :
  dedup_by_id seen (xs ++ ys)
  = dedup_by_id seen xs ++ dedup_by_id (seen ∪ list_to_set (map cat_id xs)) ys.
Proof.
  revert seen. induction xs as [|x xs IH]; intros seen; simpl.
  - f_equal. set_solver.
  - case_bool_decide as Hx.
    + rewrite IH. do 2 f_equal. set_solver.
    + simpl. rewrite IH. do 3 f_equal. set_solver.
Qed.

Lemma absorb_spec (cs : list CategoryChannel) (seen : gset Z)
    (out : list CategoryChannel) :
  absorb cs (seen, out)
  = (seen ∪ list_to_set (map cat_id cs), out ++ dedup_by_id seen cs).
Proof.
  unfold absorb. revert seen out.
  induction cs as [|c cs IH]; intros seen out; simpl.
  - rewrite app_nil_r. f_equal. set_solver.
  - case_bool_decide as Hc; simpl.
    + rewrite IH. f_equal. set_solver.
    + unfold remember. simpl. rewrite IH, <- app_assoc. f_equal. set_solver.
Qed.

Lemma absorb_app (xs ys : list CategoryChannel) (st : resolver_state) :
  absorb (xs ++ ys) st = absorb ys (absorb xs st).
Proof. unfold absorb. by rewrite fold_left_app. Qed.

Lemma id_pass_absorb (guild : Guild) (parts : list str) (st : resolver_state) :
  tokens_convert parts ->
  id_pass guild parts st
  = Ok (absorb (concat (map (id_match guild) (numeric_tokens parts))) st).
Proof.
  intros Hconv. revert st.
  induction Hconv as [|p parts Hp Hparts IH]; intros st; [done|].
  simpl. unfold numeric_tokens in *. simpl.
  destruct (isdigit p) eqn:Hd; [|apply IH].
  simpl. rewrite absorb_app, <- IH. unfold id_match.
  destruct (int_of_str p) as [n|]; [|by destruct Hp].
  destruct (get_channel guild n) as [[ch| |]|]; try done.
  unfold absorb. simpl. by destruct (negb _).
Qed.

Section ResolverProperties.

Variable lower : str -> str.

Lemma name_step_absorb (guild : Guild) (p : str) (cats : list CategoryChannel)
    (st : resolver_state) :
  fold_left (name_step lower p) cats st
  = absorb (List.filter (fun cat => bool_decide (lower (cat_name cat) = lower p)) cats)
      st.
Proof.
  revert st. induction cats as [|cat cats IH]; intros st; [done|].
  simpl. rewrite IH. unfold name_step.
  destruct (bool_decide (lower (cat_name cat) = lower p)); simpl; [|done].
  unfold absorb. simpl. done.
Qed.

Lemma name_pass_absorb (guild : Guild) (parts : list str) (st : resolver_state) :
  name_pass lower guild parts st
  = absorb (concat (map (name_match lower guild) (name_tokens parts))) st.
Proof.
  revert st. induction parts as [|p parts IH]; intros st; [done|].
  simpl. unfold name_tokens in *. simpl.
  destruct (isdigit p); simpl; [apply IH|].
  by rewrite absorb_app, IH, name_step_absorb.
Qed.

(** The two passes compute what the specification describes, whenever
    every numeric token converts. *)
Lemma parse_category_spec_resolves (guild : Guild) (spec : str) :
  tokens_convert (spec_parts spec) ->
  _parse_category_spec lower guild spec = Ok (resolve_spec lower guild spec).
Proof.
  intros Hconv. unfold _parse_category_spec, resolve_spec.
  destruct spec as [|c spec]; [reflexivity|]. cbn [truthy negb].
  rewrite id_pass_absorb by done. rewrite name_pass_absorb.
  rewrite <- absorb_app, absorb_spec. done.
Qed.

End ResolverProperties.

Lemma dedup_by_id_fresh (seen : gset Z) (cs : list CategoryChannel) :
  NoDup (map cat_id (dedup_by_id seen cs))
  /\ forall c, c ∈ dedup_by_id seen cs -> (cat_id c ∉ seen) /\ c ∈ cs.
Proof.
  revert seen. induction cs as [|c cs IH]; intros seen; simpl.
  - split; [constructor|]. by intros ? ?%elem_of_nil.
  - case_bool_decide as Hc.
    + destruct (IH seen) as [Hnd Hin]. split; [done|].
      intros c' Hc'. destruct (Hin c' Hc'). split; [done|by right].
    + destruct (IH ({[cat_id c]} ∪ seen)) as [Hnd Hin]. split.
      * simpl. constructor; [|done].
        intros Hdup. apply list_elem_of_In, in_map_iff in Hdup as (c' & Heq & Hc').
        apply list_elem_of_In, Hin in Hc' as [Hfresh _]. set_solver.
      * intros c' [->|Hc']%elem_of_cons; [split; [done|by left]|].
        destruct (Hin c' Hc') as [Hfresh ?]. split; [set_solver|by right].
Qed.

(** C5: the resolver returns the matches of the tokens, numeric ones first,
    without duplicates.  The source does not return for every spec string:
    a token that [isdigit] accepts and [int] rejects, such as a superscript
    two, raises [ValueError] out of the first pass. *)
Theorem parse_category_spec_superscript_digit (lower : str -> str) (guild : Guild) :
  isdigit [178%N] = true
  /\ int_of_str [178%N] = None
  /\ _parse_category_spec lower guild [178%N] = Raise ValueError.
Proof. split_and!; reflexivity. Qed.

(** For the spec strings whose numeric tokens all convert, the resolver is
    the one the specification describes: numeric matches, then name
    matches, first occurrences only; and the empty spec resolves to
    nothing. *)
Lemma parse_category_spec_contract (lower : str -> str) (guild : Guild) (spec : str) :
  tokens_convert (spec_parts spec) ->
  let ids := concat (map (id_match guild) (numeric_tokens (spec_parts spec))) in
  let names :=
    concat (map (name_match lower guild) (name_tokens (spec_parts spec))) in
  _parse_category_spec lower guild spec
  = Ok (dedup_by_id ∅ ids ++ dedup_by_id (list_to_set (map cat_id ids)) names)
  /\ NoDup (map cat_id (dedup_by_id ∅ (ids ++ names)))
  /\ _parse_category_spec lower guild [] = Ok [].
Proof.
  intros Hconv ids names. split_and!.
  - rewrite parse_category_spec_resolves by done. unfold resolve_spec.
    fold ids names. rewrite dedup_by_id_app. do 3 f_equal. set_solver.
  - apply dedup_by_id_fresh.
  - reflexivity.
Qed.

(** The example of the specification, and the same tokens the other way
    round. *)
Example parse_category_spec_example :
  _parse_category_spec ascii_lower example_guild (lit "123456789012345678, General")
  = Ok [cat_dev; cat_general]
  /\ _parse_category_spec ascii_lower example_guild
       (lit " general ,,123456789012345678, DEV")
     = Ok [cat_dev; cat_general].
Proof. split; vm_compute; reflexivity. Qed.

(** ** The agent gateway *)

(** The claim C8 as the specification words it does not hold: when what
    failed is [str] itself, the handler calls it again and the error
    reaches the caller; and what is not an [Exception] is not caught. *)
Lemma run_agent_call_error_propagates :
  run_agent_call (fun _ => Ok {[ "structured_response"%string := OMute ]})
    (lit "who is A?")
  = Raise OtherException
  /\ run_agent_call (fun _ => Ok {[ "structured_response"%string := OInterrupted ]})
       (lit "who is A?")
     = Raise NonException.
Proof. split; reflexivity. Qed.

(** C8, amended: a model object is converted with [model_dump], a plain
    mapping is passed through, anything else is stringified; when the
    conversion raises an [Exception] and [str] of the response succeeds,
    that string is returned instead of the error; when [str] of the
    response raises as well, or the conversion raised something that is not
    an [Exception], the error reaches the caller. *)
Theorem run_agent_call_normalizes {obj : Type} `{PyRuntime obj}
    (agent_invoke : str -> outcome (gmap string obj)) (message : str)
    (result : gmap string obj) :
  agent_invoke message = Ok result ->
  let structured := default py_None (result !! "structured_response"%string) in
  (forall d,
     isinstance_BaseModel structured = true ->
     model_dump structured = Ok d ->
     run_agent_call agent_invoke message = Ok (OutObject d))
  /\ (isinstance_BaseModel structured = false ->
      isinstance_dict structured = true ->
      run_agent_call agent_invoke message = Ok (OutObject structured))
  /\ (forall s,
        isinstance_BaseModel structured = false ->
        isinstance_dict structured = false ->
        py_str structured = Ok s ->
        run_agent_call agent_invoke message = Ok (OutString s))
  /\ (forall e s,
        convert structured = Raise e ->
        is_Exception e = true ->
        py_str structured = Ok s ->
        run_agent_call agent_invoke message = Ok (OutString s))
  /\ (forall e e',
        convert structured = Raise e ->
        is_Exception e = true ->
        py_str structured = Raise e' ->
        run_agent_call agent_invoke message = Raise e')
  /\ (forall e,
        convert structured = Raise e ->
        is_Exception e = false ->
        run_agent_call agent_invoke message = Raise e).
Proof.
  intros Hinvoke structured. unfold run_agent_call. rewrite Hinvoke.
  fold structured. unfold normalize, convert, stringify. split_and!.
  - intros d -> ->. done.
  - intros -> ->. done.
  - intros s -> -> ->. done.
  - intros e s -> -> ->. done.
  - intros e e' -> -> ->. done.
  - intros e -> ->. done.
Qed.

Lemma run_agent_call_normalizes_witness :
  run_agent_call (fun _ => Ok {[ "structured_response"%string := contact_a ]})
    (lit "who is A?")
  = Ok (OutObject (SDict [(lit "name", lit "A"); (lit "email", lit "a@x.com");
                          (lit "phone", lit "123")]))
  /\ run_agent_call (fun _ => Ok {[ "structured_response"%string := SBroken ]})
       (lit "who is B?")
     = Ok (OutString (lit "Broken()"))
  /\ run_agent_call (fun _ => Ok (∅ : gmap string simple_obj)) (lit "anyone?")
     = Ok (OutString (lit "None"))
  /\ run_agent_call (fun _ => Ok {[ "structured_response"%string := OMute ]})
       (lit "who is C?")
     = Raise OtherException
  /\ run_agent_call (fun _ => Ok {[ "structured_response"%string := OInterrupted ]})
       (lit "who is D?")
     = Raise NonException.
Proof.
  split_and!.
  - exact (proj1 (run_agent_call_normalizes
                    (fun _ => Ok {[ "structured_response"%string := contact_a ]})
                    (lit "who is A?") _ eq_refl) _ eq_refl eq_refl).
  - exact (proj1 (proj2 (proj2 (proj2 (run_agent_call_normalizes
                    (fun _ => Ok {[ "structured_response"%string := SBroken ]})
                    (lit "who is B?") _ eq_refl))))
             OtherException (lit "Broken()") eq_refl eq_refl eq_refl).
  - exact (proj1 (proj2 (proj2 (run_agent_call_normalizes
                    (fun _ => Ok (∅ : gmap string simple_obj))
                    (lit "anyone?") _ eq_refl)))
             (lit "None") eq_refl eq_refl eq_refl).
  - exact (proj1 (proj2 (proj2 (proj2 (proj2 (run_agent_call_normalizes
                    (fun _ => Ok {[ "structured_response"%string := OMute ]})
                    (lit "who is C?") _ eq_refl)))))
             OtherException OtherException eq_refl eq_refl eq_refl).
  - exact (proj2 (proj2 (proj2 (proj2 (proj2 (run_agent_call_normalizes
                    (fun _ => Ok {[ "structured_response"%string := OInterrupted ]})
                    (lit "who is D?") _ eq_refl)))))
             NonException eq_refl eq_refl).
Defined.

(** ** UTF-8 *)

Ltac lia_div := zify; Z.to_euclidean_division_equations; lia.

Ltac decide_ltb :=
  repeat match goal with
    | |- context [(?a <? ?b)%N] =>
        first [ replace (a <? b)%N with true by (symmetry; apply N.ltb_lt; lia_div)
              | replace (a <? b)%N with false by (symmetry; apply N.ltb_ge; lia_div) ]
    | |- context [(?a <=? ?b)%N] =>
        first [ replace (a <=? b)%N with true by (symmetry; apply N.leb_le; lia_div)
              | replace (a <=? b)%N with false by (symmetry; apply N.leb_gt; lia_div) ]
    end.

(** Decoding what one code point encodes to gives the code point back. *)
Lemma utf8_decode_encode_cp (c : codepoint) (bs rest : list N) :
  utf8_encode_cp c = Some bs ->
  utf8_decode (bs ++ rest) = cons c <$> utf8_decode rest.
Proof.
  unfold utf8_encode_cp.
  destruct (N.ltb_spec c 128) as [H1|H1].
  { intros [= <-]. cbn [app utf8_decode]. by decide_ltb. }
  destruct (N.ltb_spec c 2048) as [H2|H2].
  { intros [= <-]. cbn [app utf8_decode]. unfold is_cont. decide_ltb.
    cbn [andb]. do 2 f_equal. lia_div. }
  destruct (N.ltb_spec c 65536) as [H3|H3].
  { destruct (N.leb_spec 55296 c) as [H4|H4];
      [destruct (N.leb_spec c 57343) as [H5|H5]|]; cbn [andb]; [done|..];
      intros [= <-]; cbn [app utf8_decode]; unfold is_cont; cbv zeta;
      replace ((224 + c / 4096 - 224) * 4096 + (128 + (c / 64) mod 64 - 128) * 64
               + (128 + c mod 64 - 128))%N with c by lia_div;
      decide_ltb; cbn [andb negb]; done. }
  destruct (N.ltb_spec c 1114112) as [H4|H4]; [|done].
  intros [= <-]. cbn [app utf8_decode]. unfold is_cont. cbv zeta.
  replace ((240 + c / 262144 - 240) * 262144 + (128 + (c / 4096) mod 64 - 128) * 4096
           + (128 + (c / 64) mod 64 - 128) * 64 + (128 + c mod 64 - 128))%N
    with c by lia_div.
  decide_ltb. cbn [andb]. done.
Qed.

Lemma utf8_encode_cp_scalar (c : codepoint) :
  scalar_value c = true -> exists bs, utf8_encode_cp c = Some bs.
Proof.
  unfold scalar_value, utf8_encode_cp. intros Hc.
  destruct (N.ltb_spec c 128); [by eexists|].
  destruct (N.ltb_spec c 2048); [by eexists|].
  destruct (N.ltb_spec c 55296); simpl in Hc.
  - replace (c <? 65536)%N with true by (symmetry; apply N.ltb_lt; lia).
    replace (55296 <=? c)%N with false by (symmetry; apply N.leb_gt; lia).
    by eexists.
  - apply andb_true_iff in Hc as [Hlo Hhi]. apply N.ltb_lt in Hlo. rewrite Hhi.
    replace (c <=? 57343)%N with false by (symmetry; apply N.leb_gt; lia).
    rewrite andb_false_r. destruct (c <? 65536)%N; by eexists.
Qed.

(** Encoding text without lone surrogates succeeds, and decoding the bytes
    gives the text back. *)
Lemma utf8_roundtrip (s : str) :
  encodable s ->
  exists bs, utf8_encode s = Some bs /\ utf8_decode bs = Some s.
Proof.
  unfold encodable. induction s as [|c s IH]; simpl; [by exists []|].
  intros [Hc Hs]%andb_true_iff.
  destruct (IH Hs) as (bs' & Henc & Hdec).
  destruct (utf8_encode_cp_scalar c Hc) as [bs Hbs].
  exists (bs ++ bs'). rewrite Hbs, Henc. split; [done|].
  by rewrite (utf8_decode_encode_cp c bs bs' Hbs), Hdec.
Qed.

Lemma encodable_app (s t : str) : encodable s -> encodable t -> encodable (s ++ t).
Proof. unfold encodable. rewrite forallb_app. by intros -> ->. Qed.

Lemma encodable_join (parts : list str) :
  Forall encodable parts -> encodable (join nl parts).
Proof.
  induction 1 as [|x xs Hx Hxs IH]; [done|].
  rewrite join_cons. destruct (truthy xs); [|done].
  by repeat apply encodable_app.
Qed.

(** ** The overflow report *)

Lemma add_fields_fields (e : Embed) (fs : list field) :
  embed_fields (add_fields e fs)
  = embed_fields e ++ map (fun f : field => (f.1, f.2, false)) fs.
Proof.
  unfold add_fields. revert e. induction fs as [|f fs IH]; intros e; simpl.
  - by rewrite app_nil_r.
  - rewrite IH. simpl. by rewrite <- app_assoc.
Qed.

(** The claim C3 as the specification words it, for every list of lines,
    does not hold: a line with a lone surrogate cannot be encoded, and with
    25 fields the report is not built at all. *)
Lemma overflow_report_lone_surrogate :
  EMBED_MAX_FIELDS <= len (chunk_lines_into_fields surrogate_lines (lit "Results"))
  /\ build_report 30 alice 7 surrogate_lines = Raise UnicodeEncodeError
  /\ ~ (exists embed file,
          build_report 30 alice 7 surrogate_lines = Ok (embed, file)).
Proof.
  assert (Hraise : build_report 30 alice 7 surrogate_lines = Raise UnicodeEncodeError).
  { vm_compute. reflexivity. }
  split; [vm_compute; discriminate|]. split; [exact Hraise|].
  intros (embed & file & Hok). rewrite Hraise in Hok. discriminate.
Qed.

(** C3, amended: for lines that UTF-8 can encode (no lone surrogate), when
    the lines make 25 fields or more, the embed carries the first ten of
    them and then the one note field, and the attachment holds the UTF-8
    encoding of all the lines joined by newlines. *)
Theorem overflow_report (total : Z) (invoker : User) (days : Z) (report_lines : list str) :
  EMBED_MAX_FIELDS <= len (chunk_lines_into_fields report_lines (lit "Results")) ->
  Forall encodable report_lines ->
  exists embed file,
    build_report total invoker days report_lines = Ok (embed, Some file)
    /\ embed_fields embed
       = map (fun f : field => (f.1, f.2, false))
           (take 10 (chunk_lines_into_fields report_lines (lit "Results")))
         ++ [note_field]
    /\ length (take 10 (chunk_lines_into_fields report_lines (lit "Results"))) = 10%nat
    /\ filename file = lit "mentions_report.txt"
    /\ utf8_decode (fp file) = Some (join nl report_lines).
Proof.
  intros Hmany Henc. unfold build_report. cbv zeta.
  apply Z.leb_le in Hmany as Hb. rewrite Hb.
  destruct (utf8_roundtrip (join nl report_lines)) as (bytes & Hbytes & Hdec);
    [by apply encodable_join|].
  rewrite Hbytes. eexists _, _. split; [reflexivity|]. split_and!.
  - simpl. by rewrite add_fields_fields.
  - rewrite length_take. unfold len, EMBED_MAX_FIELDS in Hmany. lia.
  - done.
  - done.
Qed.

Lemma overflow_report_witness :
  EMBED_MAX_FIELDS <= len (chunk_lines_into_fields report_lines_25 (lit "Results"))
  /\ Forall encodable report_lines_25
  /\ exists embed file,
       build_report 30 alice 7 report_lines_25 = Ok (embed, Some file)
       /\ embed_fields embed
          = map (fun f : field => (f.1, f.2, false))
              (take 10 (chunk_lines_into_fields report_lines_25 (lit "Results")))
            ++ [note_field]
       /\ length (take 10 (chunk_lines_into_fields report_lines_25 (lit "Results")))
          = 10%nat
       /\ filename file = lit "mentions_report.txt"
       /\ utf8_decode (fp file) = Some (join nl report_lines_25).
Proof.
  assert (Hmany : EMBED_MAX_FIELDS
                  <= len (chunk_lines_into_fields report_lines_25 (lit "Results"))).
  { vm_compute. discriminate. }
  assert (Henc : Forall encodable report_lines_25).
  { apply Forall_forall. intros l Hl%list_elem_of_In%repeat_spec. subst l.
    vm_compute. reflexivity. }
  split_and!; [exact Hmany|exact Henc|].
  exact (overflow_report 30 alice 7 report_lines_25 Hmany Henc).
Defined.

(** What the handler sends in that case is this embed with this file. *)
Lemma scan_and_report_sends (now : datetime) (interaction : Interaction)
    (cats : list CategoryChannel) (days limit : Z) (include_threads : bool)
    (after_dt : datetime) (t : list event) (st : tally) (embed : Embed)
    (file : option File) :
  time_window now days = Ok after_dt ->
  collect_results (user interaction) (Some after_dt) limit include_threads cats
  = (t, Ok st) ->
  total_hits st <> 0 ->
  build_report (total_hits st) (user interaction) days (lines st) = Ok (embed, file) ->
  scan_and_report now interaction cats days limit include_threads
  = (t ++ [EvSendEmbed embed file true], Ok tt).
Proof.
  intros Hwin Hrun Hhits Hrep. unfold scan_and_report, lift.
  rewrite Hwin. simpl. rewrite Hrun. simpl.
  apply Z.eqb_neq in Hhits. rewrite Hhits, Hrep. simpl. done.
Qed.

(** ** The command as a whole *)

Lemma find_collabs_outside_server (lower : str -> str) (now : datetime)
    (interaction : Interaction) (spec : str) (days limit : Z) (include_threads : bool) :
  guild interaction = None ->
  find_collabs lower now interaction spec days limit include_threads
  = ([EvDefer true true;
      EvSendText (lit "This command must be used in a server.") true], Ok tt).
Proof. intros Hg. unfold find_collabs. by rewrite Hg. Qed.

(** Without a category spec, every category of the guild is scanned. *)
Lemma find_collabs_all_categories (lower : str -> str) (now : datetime)
    (interaction : Interaction) (g : Guild) (spec : str) (days limit : Z)
    (include_threads : bool) :
  guild interaction = Some g ->
  strip spec = [] ->
  find_collabs lower now interaction spec days limit include_threads
  = (EvDefer true true
       :: (scan_and_report now interaction (categories g) days limit include_threads).1,
     (scan_and_report now interaction (categories g) days limit include_threads).2).
Proof.
  intros Hg Hspec. unfold find_collabs. rewrite Hg, Hspec. simpl.
  by destruct (scan_and_report _ _ _ _ _ _) as [t r].
Qed.

(** A spec that matches nothing is answered with an error and no scan. *)
Lemma find_collabs_no_match (lower : str -> str) (now : datetime)
    (interaction : Interaction) (g : Guild) (spec : str) (days limit : Z)
    (include_threads : bool) :
  guild interaction = Some g ->
  strip spec <> [] ->
  _parse_category_spec lower g spec = Ok [] ->
  find_collabs lower now interaction spec days limit include_threads
  = ([EvDefer true true;
      EvSendText (lit "I couldn't match any categories from your input. "
                  ++ lit "Provide comma-separated category names or IDs.") true],
     Ok tt).
Proof.
  intros Hg Hspec Hparse. unfold find_collabs, lift.
  apply truthy_true in Hspec. by rewrite Hg, Hspec, Hparse.
Qed.

(** * Further properties of the report formatter *)

Lemma kept_lines_from_input (lines : list str) (l : str) :
  l ∈ kept_lines lines -> l <> [] /\ exists l0, l0 ∈ lines /\ l = strip l0.
Proof.
  unfold kept_lines. intros Hin.
  apply list_elem_of_In, filter_In in Hin as [Hin Hne].
  apply in_map_iff in Hin as (l0 & <- & Hl0).
  split; [by apply truthy_true|]. exists l0. split; [by apply list_elem_of_In|done].
Qed.

(** X1: when no trimmed line is longer than 1024 characters, no field value
    is. *)
Theorem field_values_within_limit (lines : list str) (prefix : str) :
  Forall (fun l => len (strip l) <= EMBED_FIELD_LIMIT) lines ->
  Forall (fun f : field => len f.2 <= EMBED_FIELD_LIMIT)
    (chunk_lines_into_fields lines prefix).
Proof.
  intros Hlines. apply chunk_values_bounded, Forall_forall.
  intros l (_ & l0 & Hl0 & ->)%kept_lines_from_input.
  rewrite Forall_forall in Hlines. by apply Hlines.
Qed.

Lemma field_values_within_limit_witness :
  Forall (fun l => len (strip l) <= EMBED_FIELD_LIMIT) thirty_lines
  /\ Forall (fun f : field => len f.2 <= EMBED_FIELD_LIMIT)
       (chunk_lines_into_fields thirty_lines (lit "Summary")).
Proof.
  assert (H : Forall (fun l => len (strip l) <= EMBED_FIELD_LIMIT) thirty_lines).
  { apply Forall_forall. intros l Hl. unfold thirty_lines in Hl.
    rewrite !elem_of_app in Hl.
    destruct Hl as [Hl|[Hl|Hl]];
      [apply list_elem_of_In, repeat_spec in Hl
      |apply list_elem_of_singleton in Hl
      |apply list_elem_of_In, repeat_spec in Hl];
      subst l; vm_compute; discriminate. }
  split; [exact H|]. exact (field_values_within_limit thirty_lines (lit "Summary") H).
Defined.

(** X2: a field value longer than 1024 characters is one input line,
    trimmed, and nothing else. *)
Theorem oversize_value_is_one_line (lines : list str) (prefix : str) (f : field) :
  f ∈ chunk_lines_into_fields lines prefix ->
  EMBED_FIELD_LIMIT < len f.2 ->
  exists l, l ∈ lines /\ f.2 = strip l.
Proof.
  intros Hf Hlong.
  destruct (chunk_value_within_or_single lines prefix f Hf) as [Hle|Hin]; [lia|].
  by apply kept_lines_from_input in Hin as [_ ?].
Qed.

Lemma oversize_value_is_one_line_witness :
  (lit "Summary 2", long_line)
    ∈ chunk_lines_into_fields [lit "ok"; lit " " ++ long_line] (lit "Summary")
  /\ EMBED_FIELD_LIMIT < len long_line
  /\ exists l, l ∈ [lit "ok"; lit " " ++ long_line] /\ long_line = strip l.
Proof.
  assert (Hin : (lit "Summary 2", long_line)
                  ∈ chunk_lines_into_fields [lit "ok"; lit " " ++ long_line]
                      (lit "Summary")).
  { apply list_elem_of_In. vm_compute. tauto. }
  assert (Hlong : EMBED_FIELD_LIMIT < len long_line) by (vm_compute; reflexivity).
  split_and!; [exact Hin|exact Hlong|].
  exact (oversize_value_is_one_line _ _ (lit "Summary 2", long_line) Hin Hlong).
Defined.

(** X3: the fields are named with the prefix and their position, counted
    from 1, whatever the lines are. *)
Theorem field_names_numbered (lines : list str) (prefix : str) :
  map fst (chunk_lines_into_fields lines prefix)
  = map (fun i => prefix ++ lit " " ++ str_of_int (Z.of_nat i))
      (seq 1 (length (chunk_lines_into_fields lines prefix))).
Proof. apply chunk_field_names. Qed.

(** X4: when the first kept line fits a field, the field values joined by
    newlines are the kept lines joined by newlines: nothing is lost, added
    or reordered. *)
Theorem values_join_to_kept_lines (lines : list str) (prefix : str) :
  oversize_head (kept_lines lines) = false ->
  join nl (map snd (chunk_lines_into_fields lines prefix))
  = join nl (kept_lines lines).
Proof. intros Hhead. by rewrite chunk_values_join, Hhead. Qed.

Lemma values_join_to_kept_lines_witness :
  oversize_head (kept_lines thirty_lines) = false
  /\ join nl (map snd (chunk_lines_into_fields thirty_lines (lit "Summary")))
     = join nl (kept_lines thirty_lines).
Proof.
  split; [reflexivity|].
  exact (values_join_to_kept_lines thirty_lines (lit "Summary") eq_refl).
Defined.

(** X5: the buffer left when the lines run out is emitted: the last kept
    line ends the value of the last field. *)
Theorem last_line_in_last_field (lines : list str) (prefix : str) (ks : list str)
    (l : str) :
  kept_lines lines = ks ++ [l] ->
  exists fs name b,
    chunk_lines_into_fields lines prefix = fs ++ [(name, join nl (b ++ [l]))]
    /\ exists ks', ks = ks' ++ b.
Proof. apply chunk_last_flushed. Qed.

Lemma last_line_in_last_field_witness :
  kept_lines [lit "a "; lit ""; lit " b"] = [lit "a"] ++ [lit "b"]
  /\ exists fs name b,
       chunk_lines_into_fields [lit "a "; lit ""; lit " b"] (lit "Summary")
       = fs ++ [(name, join nl (b ++ [lit "b"]))]
       /\ exists ks', [lit "a"] = ks' ++ b.
Proof.
  split; [reflexivity|].
  exact (last_line_in_last_field [lit "a "; lit ""; lit " b"] (lit "Summary")
           [lit "a"] (lit "b") eq_refl).
Defined.

(** X6: there is no field exactly when every line is blank. *)
Theorem no_fields_iff_all_blank (lines : list str) (prefix : str) :
  chunk_lines_into_fields lines prefix = [] <-> Forall (fun l => strip l = []) lines.
Proof.
  assert (Hk : kept_lines lines = [] <-> Forall (fun l => strip l = []) lines).
  { unfold kept_lines. induction lines as [|l ls IH]; simpl.
    - split; [constructor|done].
    - destruct (truthy (strip l)) eqn:Hl.
      + split; [done|]. intros H. inversion H as [|? ? Hs _]; subst.
        apply truthy_true in Hl. done.
      + apply truthy_false in Hl. rewrite IH. split.
        * intros H. by constructor.
        * intros H. by inversion H. }
  rewrite <- Hk.
  destruct (chunk_fields_groups lines prefix)
    as (groups & Hval & Hcat & Htail & Hhead & _ & Hlast).
  split.
  - intros Hnone. rewrite Hnone in Hval. symmetry in Hval.
    apply List.map_eq_nil in Hval. subst groups. by rewrite <- Hcat.
  - intros Hnone. rewrite Hnone in *.
    destruct groups as [|g gs]; [by apply List.map_eq_nil in Hval|].
    simpl in Hcat. apply app_eq_nil in Hcat as [-> _]. done.
Qed.

Lemma join_not_empty (g : list str) :
  g <> [] -> Forall (fun l => l <> []) g -> join nl g <> [].
Proof.
  intros Hg Hall. destruct g as [|x xs]; [done|].
  inversion Hall as [|? ? Hx _]; subst. rewrite join_cons.
  destruct (truthy xs); [|done]. by destruct x.
Qed.

(** X7: when the first kept line fits a field, no field has an empty
    value. *)
Theorem field_values_not_empty (lines : list str) (prefix : str) :
  oversize_head (kept_lines lines) = false ->
  Forall (fun f : field => f.2 <> []) (chunk_lines_into_fields lines prefix).
Proof.
  intros Hfit.
  destruct (chunk_fields_groups lines prefix)
    as (groups & Hval & Hcat & Htail & Hhead & _ & _).
  rewrite Hfit in Hhead.
  assert (Hgroups : Forall (fun g => g <> [] /\ Forall (fun l => l <> []) g) groups).
  { assert (Hne : Forall (fun g : list str => g <> []) groups).
    { destruct groups as [|g gs]; [constructor|]. constructor; [|done].
      by destruct g. }
    assert (Hmem : Forall (Forall (fun l : str => l <> [])) groups).
    { apply Forall_forall. intros g Hg. apply Forall_forall. intros l Hl.
      assert (Hin : l ∈ kept_lines lines).
      { rewrite <- Hcat. apply list_elem_of_In, in_concat. exists g.
        split; by apply list_elem_of_In. }
      by apply kept_lines_from_input in Hin as [? _]. }
    rewrite Forall_forall in Hne, Hmem. apply Forall_forall. intros g Hg.
    split; [by apply Hne|by apply Hmem]. }
  apply Forall_forall. intros f Hf.
  assert (Hv : f.2 ∈ map (join nl) groups).
  { rewrite <- Hval. apply list_elem_of_In, in_map, list_elem_of_In, Hf. }
  apply list_elem_of_In, in_map_iff in Hv as (g & <- & Hg).
  rewrite Forall_forall in Hgroups.
  destruct (Hgroups g) as [Hne Hall]; [by apply list_elem_of_In|].
  by apply join_not_empty.
Qed.

Lemma field_values_not_empty_witness :
  oversize_head (kept_lines thirty_lines) = false
  /\ Forall (fun f : field => f.2 <> [])
       (chunk_lines_into_fields thirty_lines (lit "Summary")).
Proof.
  split; [reflexivity|].
  exact (field_values_not_empty thirty_lines (lit "Summary") eq_refl).
Defined.

Lemma tight_snoc (gs : list (list str)) (g g' : list str) :
  tight (gs ++ [g]) -> forced_break g g' -> tight (gs ++ [g; g']).
Proof.
  intros Ht Hb. induction gs as [|a gs IH]; simpl in *.
  - constructor; [done|constructor].
  - destruct gs as [|b gs]; simpl in *.
    + inversion Ht; subst. constructor; [done|]. constructor; [done|constructor].
    + inversion Ht; subst. constructor; [done|]. by apply IH.
Qed.

Lemma tight_last_extend (gs : list (list str)) (b x : list str) :
  tight (gs ++ [b]) -> b <> [] -> tight (gs ++ [b ++ x]).
Proof.
  intros Ht Hb. induction gs as [|a gs IH]; simpl in *; [constructor|].
  destruct gs as [|c gs]; simpl in *.
  - inversion Ht as [| |? ? ? (l & r & -> & Hlen) _]; subst.
    constructor; [|constructor]. by exists l, (r ++ x).
  - inversion Ht; subst. constructor; [done|]. by apply IH.
Qed.

Lemma chunk_step_tight prefix kept st groups (line0 : str) :
  tight_inv kept st groups ->
  exists groups',
    tight_inv (kept ++ (if truthy (strip line0) then [strip line0] else []))
      (chunk_step prefix st line0) groups'.
Proof.
  intros [Hval Hlines Hlen Hstart Htight]. unfold chunk_step.
  destruct (truthy (strip line0)) eqn:Hline; simpl negb; cbn iota.
  2:{ exists groups. rewrite app_nil_r. by constructor. }
  set (line := strip line0) in *.
  destruct (EMBED_FIELD_LIMIT <? _) eqn:Hover.
  - apply Z.ltb_lt in Hover. exists (groups ++ [buf st]). constructor; simpl.
    + unfold flush. rewrite !List.map_app. simpl. f_equal. exact Hval.
    + rewrite concat_app. simpl. rewrite app_nil_r, <- app_assoc.
      by rewrite (app_assoc (concat groups)), Hlines.
    + reflexivity.
    + done.
    + rewrite <- app_assoc. apply tight_snoc; [done|].
      exists line, []. split; [done|]. rewrite <- Hlen.
      destruct (truthy (buf st)); lia.
  - apply Z.ltb_ge in Hover. exists groups. constructor; simpl.
    + done.
    + by rewrite app_assoc, Hlines.
    + rewrite join_snoc. destruct (truthy (buf st)) eqn:Hb.
      * rewrite !len_app, Hlen. unfold nl, len. simpl. lia.
      * apply truthy_false in Hb. rewrite Hb in Hlen. rewrite Hlen.
        unfold len. simpl. lia.
    + intros Hb. by apply app_eq_nil in Hb as [_ ?].
    + destruct (buf st) as [|b0 bs] eqn:Hb.
      * rewrite (Hstart eq_refl). constructor.
      * apply tight_last_extend; [done|done].
Qed.

Lemma chunk_loop_tight prefix (ls : list str) :
  exists groups, tight_inv (kept_lines ls) (chunk_loop prefix ls) groups.
Proof.
  induction ls as [|l ls IH] using rev_ind.
  - exists []. constructor; simpl; try done. constructor.
  - destruct IH as [groups IH].
    rewrite kept_lines_snoc, chunk_loop_snoc. by eapply chunk_step_tight.
Qed.

(** X8: the packing is greedy.  The fields cut the kept lines into
    consecutive groups, and a field is closed only when the next line does
    not fit: its value, a newline and the first line of the next field are
    more than 1024 characters. *)
Theorem fields_packed_greedily (lines : list str) (prefix : str) :
  exists groups,
    map snd (chunk_lines_into_fields lines prefix) = map (join nl) groups
    /\ concat groups = kept_lines lines
    /\ tight groups.
Proof.
  destruct (chunk_loop_tight prefix lines) as [groups [Hval Hlines Hlen Hstart Ht]].
  unfold chunk_lines_into_fields. cbv zeta.
  destruct (truthy (buf (chunk_loop prefix lines))) eqn:Hb.
  - exists (groups ++ [buf (chunk_loop prefix lines)]). split_and!.
    + unfold flush. rewrite !List.map_app. simpl. f_equal. exact Hval.
    + rewrite concat_app. simpl. by rewrite app_nil_r.
    + done.
  - apply truthy_false in Hb. specialize (Hstart Hb). subst groups.
    rewrite Hb in Hlines. exists []. split_and!; [done|done|constructor].
Qed.

(** ** Blank lines and surrounding whitespace *)

Lemma lstrip_snoc (u : str) (c : codepoint) :
  isspace c = false -> lstrip (u ++ [c]) = lstrip u ++ [c].
Proof.
  intros Hc. induction u as [|d u IH]; simpl; [by rewrite Hc|].
  by destruct (isspace d).
Qed.

Lemma lstrip_idem (s : str) : lstrip (lstrip s) = lstrip s.
Proof.
  induction s as [|c s IH]; [done|]. simpl.
  destruct (isspace c) eqn:Hc; [done|]. simpl. by rewrite Hc.
Qed.

Lemma rstrip_idem (s : str) : rstrip (rstrip s) = rstrip s.
Proof. unfold rstrip. by rewrite rev_involutive, lstrip_idem. Qed.

Lemma rstrip_cons (c : codepoint) (t : str) :
  isspace c = false -> rstrip (c :: t) = c :: rstrip t.
Proof.
  intros Hc. unfold rstrip. simpl. rewrite lstrip_snoc by done.
  by rewrite rev_app_distr.
Qed.

Lemma strip_idem (s : str) : strip (strip s) = strip s.
Proof.
  unfold strip. destruct (lstrip s) as [|c t] eqn:Hs; [done|].
  assert (Hc : isspace c = false).
  { clear -Hs. induction s as [|d s IH]; [done|]. simpl in Hs.
    destruct (isspace d) eqn:Hd; [by apply IH|]. by injection Hs as -> _. }
  rewrite rstrip_cons by done. simpl. rewrite Hc.
  rewrite rstrip_cons by done. by rewrite rstrip_idem.
Qed.

Lemma chunk_step_strip prefix st (l : str) :
  chunk_step prefix st (strip l) = chunk_step prefix st l.
Proof. unfold chunk_step. by rewrite strip_idem. Qed.

Lemma chunk_step_blank prefix st (l : str) :
  truthy (strip l) = false -> chunk_step prefix st l = st.
Proof. intros Hl. unfold chunk_step. by rewrite Hl. Qed.

(** X9: blank lines and the whitespace around a line do not matter: the
    fields of the lines are the fields of the kept lines, so two inputs with
    the same kept lines give the same fields. *)
Theorem fields_depend_on_kept_lines (lines : list str) (prefix : str) :
  chunk_lines_into_fields lines prefix
  = chunk_lines_into_fields (kept_lines lines) prefix
  /\ forall lines',
       kept_lines lines' = kept_lines lines ->
       chunk_lines_into_fields lines' prefix = chunk_lines_into_fields lines prefix.
Proof.
  assert (Hloop : forall ls st,
             fold_left (chunk_step prefix) ls st
             = fold_left (chunk_step prefix) (kept_lines ls) st).
  { induction ls as [|l ls IH]; intros st; [done|].
    unfold kept_lines in *. simpl.
    destruct (truthy (strip l)) eqn:Hl; simpl.
    - by rewrite chunk_step_strip, IH.
    - by rewrite chunk_step_blank, IH. }
  assert (Hsame : forall ls,
             chunk_lines_into_fields ls prefix
             = chunk_lines_into_fields (kept_lines ls) prefix).
  { intros ls. unfold chunk_lines_into_fields, chunk_loop.
    by rewrite (Hloop ls). }
  split; [apply Hsame|].
  intros lines' Hk. by rewrite (Hsame lines'), Hk, <- Hsame.
Qed.

Lemma fields_depend_on_kept_lines_witness :
  kept_lines [lit " a "; lit ""; lit "b"] = kept_lines [lit "a"; lit "b  "]
  /\ chunk_lines_into_fields [lit " a "; lit ""; lit "b"] (lit "Summary")
     = chunk_lines_into_fields [lit "a"; lit "b  "] (lit "Summary").
Proof.
  split; [reflexivity|].
  exact (proj2 (fields_depend_on_kept_lines [lit "a"; lit "b  "] (lit "Summary"))
           [lit " a "; lit ""; lit "b"] eq_refl).
Defined.

(** * Further properties of the category resolver *)

Lemma tokens_convertb_ok (parts : list str) :
  tokens_convertb parts = true <-> tokens_convert parts.
Proof.
  unfold tokens_convertb, tokens_convert.
  rewrite forallb_forall, Forall_forall. split.
  - intros H p Hp Hd. apply list_elem_of_In, H in Hp. rewrite Hd in Hp. simpl in Hp.
    by apply bool_decide_eq_true in Hp.
  - intros H p Hp. apply list_elem_of_In in Hp.
    destruct (isdigit p) eqn:Hd; [|done]. simpl.
    apply bool_decide_eq_true. by apply H.
Qed.

(** The first pass either goes through, or stops with [ValueError] at a
    token that [isdigit] accepts and [int] rejects. *)
Lemma id_pass_outcome (guild : Guild) (parts : list str) (st : resolver_state) :
  (tokens_convert parts
   /\ id_pass guild parts st
      = Ok (absorb (concat (map (id_match guild) (numeric_tokens parts))) st))
  \/ (~ tokens_convert parts /\ id_pass guild parts st = Raise ValueError).
Proof.
  destruct (tokens_convertb parts) eqn:Hb.
  - apply tokens_convertb_ok in Hb. left. split; [done|]. by apply id_pass_absorb.
  - right. assert (Hn : ~ tokens_convert parts).
    { rewrite <- tokens_convertb_ok. by rewrite Hb. }
    split; [done|]. clear Hb. revert st.
    induction parts as [|p parts IH]; intros st; [by destruct Hn; constructor|].
    simpl. destruct (isdigit p) eqn:Hd.
    + destruct (int_of_str p) as [n|] eqn:Hi; [|done].
      assert (Hn' : ~ tokens_convert parts).
      { intros H. apply Hn. constructor; [|done]. intros _. by rewrite Hi. }
      destruct (get_channel guild n) as [[ch| |]|]; try by apply IH.
      destruct (negb _); by apply IH.
    + apply IH. intros H. apply Hn. constructor; [|done]. by rewrite Hd.
Qed.

(** X10: for a spec whose numeric tokens all convert, the resolver returns
    the matches of the numeric tokens, then the matches of the name tokens,
    each category once, at its first occurrence. *)
Theorem resolver_returns_resolution (lower : str -> str) (guild : Guild) (spec : str) :
  tokens_convert (spec_parts spec) ->
  _parse_category_spec lower guild spec = Ok (resolve_spec lower guild spec)
  /\ resolve_spec lower guild spec
     = dedup_by_id ∅
         (concat (map (id_match guild) (numeric_tokens (spec_parts spec))))
       ++ dedup_by_id
            (list_to_set
               (map cat_id
                  (concat (map (id_match guild) (numeric_tokens (spec_parts spec))))))
            (concat (map (name_match lower guild) (name_tokens (spec_parts spec)))).
Proof.
  intros Hconv. split; [by apply parse_category_spec_resolves|].
  unfold resolve_spec. cbv zeta. rewrite dedup_by_id_app. do 2 f_equal. set_solver.
Qed.

Lemma resolver_returns_resolution_witness :
  tokens_convert (spec_parts (lit "General, 123456789012345678 ,dev"))
  /\ _parse_category_spec ascii_lower example_guild
       (lit "General, 123456789012345678 ,dev")
     = Ok [cat_dev; cat_general].
Proof.
  assert (H : tokens_convert (spec_parts (lit "General, 123456789012345678 ,dev"))).
  { apply tokens_convertb_ok. vm_compute. reflexivity. }
  split; [exact H|].
  exact (proj1 (resolver_returns_resolution ascii_lower example_guild
                  (lit "General, 123456789012345678 ,dev") H)).
Defined.

(** X11: the resolver raises exactly when some token passes [isdigit] and
    is not converted by [int], and what it raises is [ValueError]. *)
Theorem resolver_raises_iff (lower : str -> str) (guild : Guild) (spec : str)
    (e : exn) :
  _parse_category_spec lower guild spec = Raise e
  <-> e = ValueError /\ ~ tokens_convert (spec_parts spec).
Proof.
  unfold _parse_category_spec. destruct spec as [|c spec].
  - simpl. split; [done|]. intros [_ H]. destruct H. constructor.
  - cbn [truthy negb].
    destruct (id_pass_outcome guild (spec_parts (c :: spec)) (∅, []))
      as [[Hc ->]|[Hn ->]].
    + split; [done|]. by intros [_ ?].
    + split; [by intros [= <-]|by intros [-> _]].
Qed.

Lemma dedup_by_id_complete (seen : gset Z) (cs : list CategoryChannel)
    (c : CategoryChannel) :
  c ∈ cs ->
  cat_id c ∈ seen \/ exists c', c' ∈ dedup_by_id seen cs /\ cat_id c' = cat_id c.
Proof.
  revert seen. induction cs as [|d cs IH]; intros seen; [by intros ?%elem_of_nil|].
  intros [->|Hin]%elem_of_cons; simpl.
  - case_bool_decide; [by left|]. right. exists d. split; [by left|done].
  - case_bool_decide.
    + by apply IH.
    + destruct (IH ({[cat_id d]} ∪ seen) Hin) as [Hs|(c' & Hc' & Heq)].
      * apply elem_of_union in Hs as [Hs|Hs]; [|by left].
        apply elem_of_singleton in Hs. right. exists d. split; [by left|done].
      * right. exists c'. split; [by right|done].
Qed.

Lemma token_matches (lower : str -> str) (guild : Guild) (parts : list str)
    (c : CategoryChannel) :
  c ∈ concat (map (id_match guild) (numeric_tokens parts))
      ++ concat (map (name_match lower guild) (name_tokens parts))
  <-> exists p, p ∈ parts /\ names_category lower guild p c.
Proof.
  rewrite elem_of_app. unfold numeric_tokens, name_tokens, names_category. split.
  - intros [Hin|Hin]; apply list_elem_of_In, in_concat in Hin as (l & Hl & Hc);
      apply in_map_iff in Hl as (p & <- & Hp); apply filter_In in Hp as [Hp Hd];
      exists p; (split; [by apply list_elem_of_In|]).
    + left. split; [done|]. unfold id_match in Hc.
      destruct (int_of_str p) as [n|]; [|done]. exists n. split; [done|].
      destruct (get_channel guild n) as [[ch| |]|]; try done.
      by destruct Hc as [->|[]].
    + right. apply negb_true_iff in Hd. split; [done|].
      unfold name_match in Hc. apply filter_In in Hc as [Hc Hn].
      apply bool_decide_eq_true in Hn. split; [by apply list_elem_of_In|done].
  - intros (p & Hp & [[Hd (n & Hn & Hg)]|[Hd [Hc Hl]]]); apply list_elem_of_In in Hp.
    + left. apply list_elem_of_In, in_concat. exists (id_match guild p). split.
      * apply in_map, filter_In. done.
      * unfold id_match. rewrite Hn, Hg. by left.
    + right. apply list_elem_of_In, in_concat. exists (name_match lower guild p).
      split.
      * apply in_map, filter_In. split; [done|]. by rewrite Hd.
      * unfold name_match. apply filter_In. split; [by apply list_elem_of_In|].
        by apply bool_decide_eq_true.
Qed.

(** X12: what the resolver returns holds no identifier twice; every
    category in it is named by a token; and every category a token names
    is in it, by identifier. *)
Theorem resolver_result_exact (lower : str -> str) (guild : Guild) (spec : str)
    (cs : list CategoryChannel) :
  _parse_category_spec lower guild spec = Ok cs ->
  NoDup (map cat_id cs)
  /\ (forall c, c ∈ cs ->
        exists p, p ∈ spec_parts spec /\ names_category lower guild p c)
  /\ (forall p c, p ∈ spec_parts spec -> names_category lower guild p c ->
        exists c', c' ∈ cs /\ cat_id c' = cat_id c).
Proof.
  intros Hrun.
  assert (Hconv : tokens_convert (spec_parts spec)).
  { unfold _parse_category_spec in Hrun. destruct spec as [|ch spec].
    - constructor.
    - cbn [truthy negb] in Hrun.
      destruct (id_pass_outcome guild (spec_parts (ch :: spec)) (∅, []))
        as [[Hc _]|[_ Hr]]; [done|]. by rewrite Hr in Hrun. }
  rewrite parse_category_spec_resolves in Hrun by done. injection Hrun as <-.
  unfold resolve_spec. cbv zeta. split_and!.
  - apply dedup_by_id_fresh.
  - intros c Hc. apply dedup_by_id_fresh in Hc as [_ Hc]. by apply token_matches.
  - intros p c Hp Hn.
    assert (Hin : c ∈ concat (map (id_match guild) (numeric_tokens (spec_parts spec)))
                      ++ concat (map (name_match lower guild)
                                   (name_tokens (spec_parts spec)))).
    { apply token_matches. by exists p. }
    destruct (dedup_by_id_complete ∅ _ c Hin) as [?|?]; [set_solver|done].
Qed.

Lemma resolver_result_exact_witness :
  _parse_category_spec ascii_lower example_guild (lit "dev,DEV, 10, nobody")
  = Ok [cat_dev]
  /\ NoDup (map cat_id [cat_dev]).
Proof.
  assert (H : _parse_category_spec ascii_lower example_guild
                (lit "dev,DEV, 10, nobody") = Ok [cat_dev]).
  { vm_compute. reflexivity. }
  split; [exact H|].
  exact (proj1 (resolver_result_exact ascii_lower example_guild
                  (lit "dev,DEV, 10, nobody") [cat_dev] H)).
Defined.

(** * Further properties of the history scanner *)

(** X13: an exception of the channel history that is neither [Forbidden]
    nor another [HTTPException] is not caught: the scan raises it, the hits
    found so far are lost, and the loop over the channels ends there without
    asking any later channel. *)
Theorem channel_scan_propagates (ch : TextChannel) (u : User)
    (after_dt : option datetime) (limit : Z) (e : exn) :
  ending (ch_history ch (history_kwargs after_dt limit)) = Some e ->
  is_HTTPException e = false ->
  _search_channel_for_mentions ch u after_dt limit
  = ([channel_call (history_kwargs after_dt limit) ch], Raise e)
  /\ forall include_threads cat rest hdr st,
       channels_loop u after_dt limit include_threads cat (ch :: rest) hdr st
       = ([channel_call (history_kwargs after_dt limit) ch], Raise e).
Proof.
  intros He Hhttp.
  assert (Hscan : _search_channel_for_mentions ch u after_dt limit
                  = ([channel_call (history_kwargs after_dt limit) ch], Raise e)).
  { by rewrite search_channel_eq, He, Hhttp. }
  split; [done|]. intros. cbn [channels_loop]. unfold channel_body.
  by rewrite Hscan.
Qed.

Lemma channel_scan_propagates_witness :
  ending (ch_history ch_failing (history_kwargs None 200)) = Some OtherException
  /\ is_HTTPException OtherException = false
  /\ _search_channel_for_mentions ch_failing alice None 200
     = ([EvChannelHistory 13 (history_kwargs None 200)], Raise OtherException).
Proof.
  split_and!; [reflexivity..|].
  exact (proj1 (channel_scan_propagates ch_failing alice None 200 OtherException
                  eq_refl eq_refl)).
Defined.

(** X14: in the per-thread scan, an exception that is not caught ends the
    scan at that thread: the threads before it were asked, the threads
    after it are not, and the results collected so far are lost. *)
Theorem thread_scan_aborts (ch : TextChannel) (u : User) (after_dt : option datetime)
    (limit : Z) (before : list Thread) (th : Thread) (rest : list Thread) (e : exn) :
  threads ch = before ++ th :: rest ->
  threads_benign (history_kwargs after_dt limit) before ->
  locked th = false ->
  ending (th_history th (history_kwargs after_dt limit)) = Some e ->
  is_HTTPException e = false ->
  _search_active_threads_for_mentions ch u after_dt limit
  = (map (thread_call (history_kwargs after_dt limit))
       (List.filter (fun t => negb (locked t)) before)
     ++ [thread_call (history_kwargs after_dt limit) th],
     Raise e).
Proof.
  intros Hths Hben Hl He Hhttp. unfold _search_active_threads_for_mentions.
  rewrite Hths. clear Hths. generalize (@nil (Thread * list Message)) as results.
  induction Hben as [|t ts Ht Hts IH]; intros results;
    cbn [app threads_loop List.filter].
  - rewrite Hl, collect_hits_spec, He. simpl.
    replace (is_Forbidden e) with false by (by destruct e). by rewrite Hhttp.
  - destruct (locked t) eqn:Hlt; cbn [negb]; [apply IH|].
    rewrite collect_hits_spec. unfold emit. cbn [bind].
    destruct (ending (th_history t _)) as [e'|] eqn:He'.
    + rewrite (Ht eq_refl e' eq_refl), orb_true_r. by rewrite IH.
    + by rewrite IH.
Qed.

Lemma thread_scan_aborts_witness :
  _search_active_threads_for_mentions
    {| ch_id := 14; ch_history := fun _ => HStop;
       threads := [th_locked; th_busy] ++ th_failing :: [th_silent] |}
    alice None 100
  = ([EvThreadHistory 24 (history_kwargs None 100);
      EvThreadHistory 25 (history_kwargs None 100)], Raise OtherException).
Proof.
  refine (thread_scan_aborts
            {| ch_id := 14; ch_history := fun _ => HStop;
               threads := [th_locked; th_busy] ++ th_failing :: [th_silent] |}
            alice None 100 [th_locked; th_busy] th_failing [th_silent]
            OtherException eq_refl _ eq_refl eq_refl eq_refl).
  repeat constructor; simpl; intros; discriminate.
Defined.

(** * Further properties of the collection loop *)

Lemma fold_add_thread_total (hits : list (Thread * list Message)) (st : tally) :
  total_hits st <= total_hits (fold_left add_thread hits st).
Proof.
  revert st. induction hits as [|h hits IH]; intros st; simpl; [lia|].
  etrans; [|apply IH]. simpl. unfold len. lia.
Qed.

(** What the body of the channel loop returns, case by case. *)
Lemma channel_body_inv (u : User) (after_dt : option datetime) (limit : Z)
    (include_threads : bool) (cat : CategoryChannel) (ch : TextChannel)
    (hdr : bool) (st : tally) (t : list event) (st' : tally) (hdr' broke : bool) :
  channel_body u after_dt limit include_threads cat ch hdr st
  = (t, Ok (st', hdr', broke)) ->
  (direct_hits u (history_kwargs after_dt limit) ch = []
   /\ st' = st /\ hdr' = hdr /\ broke = false
   /\ t = [channel_call (history_kwargs after_dt limit) ch])
  \/ (direct_hits u (history_kwargs after_dt limit) ch <> []
      /\ hdr' = true
      /\ exists (th_hits : list (Thread * list Message)) (tt : list event),
           (if include_threads
            then _search_active_threads_for_mentions ch u after_dt (Z.min limit 100)
                 = (tt, Ok th_hits)
            else th_hits = [] /\ tt = [])
           /\ t = channel_call (history_kwargs after_dt limit) ch :: tt
           /\ let hits := direct_hits u (history_kwargs after_dt limit) ch in
              let st3 :=
                fold_left add_thread th_hits
                  {| total_hits := total_hits st + len hits;
                     lines := (if negb hdr then lines st ++ [category_line cat]
                               else lines st) ++ [channel_line ch hits] |} in
              if MAX_LINES <=? len (lines st3)
              then st' = {| total_hits := total_hits st3;
                            lines := lines st3 ++ [truncation_note] |}
                   /\ broke = true
              else st' = st3 /\ broke = false).
Proof.
  unfold channel_body. intros (hits & t1 & t2 & Hscan & Hk & ->)%bind_ok.
  rewrite search_channel_eq in Hscan.
  assert (hits = direct_hits u (history_kwargs after_dt limit) ch
          /\ t1 = [channel_call (history_kwargs after_dt limit) ch]) as [-> ->].
  { destruct (ending _) as [e|]; [destruct (is_HTTPException e)|];
      by inversion Hscan. }
  clear Hscan. destruct (truthy _) eqn:Hh.
  2:{ apply truthy_false in Hh. apply ret_ok in Hk as [[= <- <- <-] ->]. by left. }
  apply truthy_true in Hh. right. split; [done|].
  apply bind_ok in Hk as (st3 & ta & tb & H3 & Hret & ->).
  assert (exists th_hits,
             (if include_threads
              then _search_active_threads_for_mentions ch u after_dt (Z.min limit 100)
                   = (ta, Ok th_hits)
              else th_hits = [] /\ ta = [])
             /\ st3 = fold_left add_thread th_hits
                        {| total_hits := total_hits st
                                         + len (direct_hits u (history_kwargs after_dt limit) ch);
                           lines := (if negb hdr then lines st ++ [category_line cat]
                                     else lines st)
                                    ++ [channel_line ch
                                          (direct_hits u (history_kwargs after_dt limit) ch)] |})
    as (th_hits & Hth & ->).
  { destruct include_threads.
    - apply bind_ok in H3 as (ths & t3 & t4 & Hs & [<- ->]%ret_ok & ->).
      exists ths. by rewrite app_nil_r.
    - apply ret_ok in H3 as [<- ->]. by exists []. }
  cbv zeta. destruct (MAX_LINES <=? _) eqn:Hcap;
    apply ret_ok in Hret as [[= <- <- <-] ->]; (split; [done|]);
    exists th_hits, ta; rewrite app_nil_r; split_and!; try done;
    by rewrite Hcap.
Qed.

Lemma channel_body_tally (u : User) (after_dt : option datetime) (limit : Z)
    (include_threads : bool) (cat : CategoryChannel) (ch : TextChannel)
    (hdr : bool) (st : tally) (t : list event) (st' : tally) (hdr' broke : bool) :
  channel_body u after_dt limit include_threads cat ch hdr st
  = (t, Ok (st', hdr', broke)) ->
  0 <= total_hits st /\ (total_hits st = 0 <-> lines st = []) ->
  0 <= total_hits st' /\ (total_hits st' = 0 <-> lines st' = []).
Proof.
  intros [(_ & -> & _)|(Hh & _ & ths & tt & _ & _ & Hst)]%channel_body_inv [H0 Hiff];
    [done|].
  cbv zeta in Hst.
  set (st2 := {| total_hits := _; lines := _ |}) in Hst.
  assert (Hpos : 0 < total_hits (fold_left add_thread ths st2)).
  { eapply Z.lt_le_trans; [|apply fold_add_thread_total]. simpl.
    destruct (direct_hits _ _ _); [done|]. unfold len. simpl. lia. }
  assert (Hne : lines (fold_left add_thread ths st2) <> []).
  { rewrite fold_add_thread_lines. simpl. intros Hnil.
    apply app_eq_nil in Hnil as [Hnil _]. by apply app_eq_nil in Hnil as [_ ?]. }
  destruct (MAX_LINES <=? _); destruct Hst as [-> _]; simpl.
  - split; [lia|]. split; [lia|]. intros Hnil. by apply app_eq_nil in Hnil as [_ ?].
  - split; [lia|]. split; [lia|done].
Qed.

(** X15: the count and the lines agree.  When the collection returns, the
    count of hits is not negative, and it is zero exactly when there is no
    line: the "no pings" answer is given exactly when there is nothing to
    report. *)
Theorem tally_zero_iff_no_lines (invoker : User) (after_dt : option datetime)
    (per_channel_limit : Z) (include_threads : bool) (cats : list CategoryChannel)
    (t : list event) (st : tally) :
  collect_results invoker after_dt per_channel_limit include_threads cats
  = (t, Ok st) ->
  0 <= total_hits st /\ (total_hits st = 0 <-> lines st = []).
Proof.
  unfold collect_results.
  assert (Hch : forall cat chs hdr s0 t0 s1,
             channels_loop invoker after_dt per_channel_limit include_threads
               cat chs hdr s0 = (t0, Ok s1) ->
             0 <= total_hits s0 /\ (total_hits s0 = 0 <-> lines s0 = []) ->
             0 <= total_hits s1 /\ (total_hits s1 = 0 <-> lines s1 = [])).
  { intros cat chs. induction chs as [|ch chs IH]; intros hdr s0 t0 s1;
      cbn [channels_loop].
    - by intros [<- _]%ret_ok.
    - intros ([[s2 h2] broke] & t1 & t2 & Hbody & Hk & _)%bind_ok Hinv.
      pose proof (channel_body_tally _ _ _ _ _ _ _ _ _ _ _ _ Hbody Hinv) as Hinv2.
      destruct broke; [by apply ret_ok in Hk as [<- _]|by eapply IH]. }
  assert (Hinit : 0 <= total_hits {| total_hits := 0; lines := [] |}
                  /\ (total_hits {| total_hits := 0; lines := [] |} = 0
                      <-> lines {| total_hits := 0; lines := [] |} = [])).
  { done. }
  revert Hinit. generalize {| total_hits := 0; lines := [] |} as s0. revert t.
  induction cats as [|cat cats IH]; intros t s0 Hinv; cbn [categories_loop].
  - by intros [<- _]%ret_ok.
  - intros (s1 & t1 & t2 & Hloop & Hk & _)%bind_ok.
    pose proof (Hch _ _ _ _ _ _ Hloop Hinv) as Hinv1.
    destruct (_ <=? _); [by apply ret_ok in Hk as [<- _]|by eapply IH].
Qed.

Lemma tally_zero_iff_no_lines_witness :
  collect_results alice None 200 true [with_channels cat_big [ch_crowded]]
  = (crowded_trace, Ok crowded_tally)
  /\ 0 <= total_hits crowded_tally
  /\ (total_hits crowded_tally = 0 <-> lines crowded_tally = []).
Proof.
  assert (Hrun : collect_results alice None 200 true
                   [with_channels cat_big [ch_crowded]]
                 = (crowded_trace, Ok crowded_tally)).
  { vm_compute. reflexivity. }
  split; [exact Hrun|].
  exact (tally_zero_iff_no_lines alice None 200 true _ _ _ Hrun).
Defined.

(** X16: without threads the cap holds: the collection returns at most 42
    lines, the 41 that two lines for one more channel can make of 39, and
    the truncation note. *)
Theorem lines_bounded_without_threads (invoker : User) (after_dt : option datetime)
    (per_channel_limit : Z) (cats : list CategoryChannel) (t : list event)
    (st : tally) :
  collect_results invoker after_dt per_channel_limit false cats = (t, Ok st) ->
  len (lines st) <= MAX_LINES + 2.
Proof.
  unfold collect_results.
  assert (Hbody : forall cat ch hdr s0 t0 s1 h1 broke,
             channel_body invoker after_dt per_channel_limit false cat ch hdr s0
             = (t0, Ok (s1, h1, broke)) ->
             len (lines s0) < MAX_LINES ->
             if broke then len (lines s1) <= MAX_LINES + 2
             else len (lines s1) < MAX_LINES).
  { intros cat ch hdr s0 t0 s1 h1 broke
      [(_ & -> & _ & -> & _)|(_ & _ & ths & tt & [-> _] & _ & Hst)]%channel_body_inv
      Hlt; [done|].
    cbv zeta in Hst. simpl in Hst.
    destruct (MAX_LINES <=? _) eqn:Hcap; destruct Hst as [-> ->]; simpl.
    - rewrite !len_app. destruct (negb hdr); rewrite ?len_app; unfold len in *;
        simpl; lia.
    - by apply Z.leb_gt in Hcap. }
  assert (Hch : forall cat chs hdr s0 t0 s1,
             channels_loop invoker after_dt per_channel_limit false cat chs hdr s0
             = (t0, Ok s1) ->
             len (lines s0) < MAX_LINES ->
             len (lines s1) <= MAX_LINES + 2).
  { intros cat chs. induction chs as [|ch chs IH]; intros hdr s0 t0 s1;
      cbn [channels_loop].
    - intros [<- _]%ret_ok. lia.
    - intros ([[s2 h2] broke] & t1 & t2 & Hb & Hk & _)%bind_ok Hlt.
      pose proof (Hbody _ _ _ _ _ _ _ _ Hb Hlt) as H2.
      destruct broke; [by apply ret_ok in Hk as [<- _]|by eapply IH]. }
  assert (Hinit : len (lines {| total_hits := 0; lines := [] |}) < MAX_LINES) by done.
  revert Hinit. generalize {| total_hits := 0; lines := [] |} as s0. revert t.
  induction cats as [|cat cats IH]; intros t s0 Hlt; cbn [categories_loop].
  - intros [<- _]%ret_ok. lia.
  - intros (s1 & t1 & t2 & Hloop & Hk & _)%bind_ok.
    pose proof (Hch _ _ _ _ _ _ Hloop Hlt) as H1.
    destruct (MAX_LINES <=? len (lines s1)) eqn:Hcap.
    + by apply ret_ok in Hk as [<- _].
    + apply Z.leb_gt in Hcap. by eapply IH.
Qed.

Lemma lines_bounded_without_threads_witness :
  collect_results alice None 200 false [cat_dev] = (dev_trace, Ok dev_tally)
  /\ len (lines dev_tally) <= MAX_LINES + 2.
Proof.
  assert (Hrun : collect_results alice None 200 false [cat_dev]
                 = (dev_trace, Ok dev_tally)).
  { vm_compute. reflexivity. }
  split; [exact Hrun|].
  exact (lines_bounded_without_threads alice None 200 [cat_dev] _ _ Hrun).
Defined.

(** ** The order of the calls *)

Lemma filter_no_channel_call (t : list event) :
  (forall ev, ev ∈ t -> is_channel_call ev = false) ->
  List.filter is_channel_call t = [].
Proof.
  induction t as [|ev t IH]; [done|]. intros H. simpl.
  rewrite (H ev) by by left. apply IH. intros ev' Hin. apply H. by right.
Qed.

Lemma channel_body_calls (u : User) (after_dt : option datetime) (limit : Z)
    (include_threads : bool) (cat : CategoryChannel) (ch : TextChannel)
    (hdr : bool) (st : tally) :
  List.filter is_channel_call
    (channel_body u after_dt limit include_threads cat ch hdr st).1
  = [channel_call (history_kwargs after_dt limit) ch].
Proof.
  unfold channel_body. rewrite bind_eq, search_channel_eq. cbn [fst snd].
  assert (Hk : forall hits,
             List.filter is_channel_call
               ((if truthy hits
                 then
                   let* st3 :=
                     (if include_threads
                      then
                        let* thread_hits :=
                          _search_active_threads_for_mentions ch u after_dt
                            (Z.min limit 100) in
                        ret (fold_left add_thread thread_hits
                               {| total_hits := total_hits st + len hits;
                                  lines :=
                                    (if negb hdr
                                     then lines st ++ [category_line cat]
                                     else lines st) ++ [channel_line ch hits] |})
                      else
                        ret {| total_hits := total_hits st + len hits;
                               lines :=
                                 (if negb hdr then lines st ++ [category_line cat]
                                  else lines st) ++ [channel_line ch hits] |}) in
                   if MAX_LINES <=? len (lines st3)
                   then ret ({| total_hits := total_hits st3;
                                lines := lines st3 ++ [truncation_note] |}, true, true)
                   else ret (st3, true, false)
                 else ret (st, hdr, false)).1) = []).
  { intros hits. apply filter_no_channel_call. intros ev Hev.
    destruct (truthy hits); [|by apply elem_of_nil in Hev].
    apply bind_trace in Hev as [Hev|(st3 & _ & Hev)].
    - destruct include_threads; [|by apply elem_of_nil in Hev].
      apply bind_trace in Hev as [Hev|(? & _ & Hev)]; [|by apply elem_of_nil in Hev].
      by apply threads_loop_trace in Hev as (th & _ & _ & ->).
    - destruct (_ <=? _); by apply elem_of_nil in Hev. }
  destruct (ending _) as [e|]; [destruct (is_HTTPException e)|]; cbn [fst snd];
    try done; rewrite List.filter_app, Hk; done.
Qed.

Lemma channel_body_broke (u : User) (after_dt : option datetime) (limit : Z)
    (include_threads : bool) (cat : CategoryChannel) (ch : TextChannel)
    (hdr : bool) (st : tally) (t : list event) (st' : tally) (hdr' : bool) :
  channel_body u after_dt limit include_threads cat ch hdr st
  = (t, Ok (st', hdr', true)) ->
  MAX_LINES <= len (lines st').
Proof.
  intros [(_ & _ & _ & ? & _)|(_ & _ & ths & tt & _ & _ & Hst)]%channel_body_inv;
    [done|].
  cbv zeta in Hst. destruct (MAX_LINES <=? _) eqn:Hcap; [|by destruct Hst].
  destruct Hst as [-> _]. simpl. apply Z.leb_le in Hcap.
  rewrite len_app. unfold len in *. simpl. lia.
Qed.

Lemma channels_loop_calls (u : User) (after_dt : option datetime) (limit : Z)
    (include_threads : bool) (cat : CategoryChannel) (chs : list TextChannel)
    (hdr : bool) (st : tally) :
  exists k : nat,
    (k <= length chs)%nat
    /\ List.filter is_channel_call
         (channels_loop u after_dt limit include_threads cat chs hdr st).1
       = map (channel_call (history_kwargs after_dt limit)) (take k chs)
    /\ forall st',
         (channels_loop u after_dt limit include_threads cat chs hdr st).2 = Ok st' ->
         len (lines st') < MAX_LINES ->
         k = length chs.
Proof.
  revert hdr st. induction chs as [|ch chs IH]; intros hdr st; cbn [channels_loop].
  - exists 0%nat. by split_and!.
  - rewrite bind_eq.
    pose proof (channel_body_calls u after_dt limit include_threads cat ch hdr st)
      as Hcalls.
    destruct (channel_body u after_dt limit include_threads cat ch hdr st)
      as [t1 [[[s1 h1] broke]|e]] eqn:Hbody; cbn [fst snd] in *.
    + destruct broke; cbn [fst snd].
      * exists 1%nat. split_and!; [simpl; lia| |].
        -- by rewrite app_nil_r.
        -- intros st' [= <-] Hlt. apply channel_body_broke in Hbody. lia.
      * destruct (IH h1 s1) as (k & Hk & Hf & Hdone).
        exists (S k). split_and!; [simpl; lia| |].
        -- rewrite List.filter_app, Hcalls, Hf. done.
        -- intros st' Hst' Hlt. by rewrite (Hdone st' Hst' Hlt).
    + exists 1%nat. split_and!; [simpl; lia|done|done].
Qed.

(** X17: the channels are asked for their history in the order of the
    categories and of their text channels, each once and none skipped: the
    channel calls of a run, in order, are those of an initial segment of the
    channels. *)
Theorem channels_scanned_in_order (invoker : User) (after_dt : option datetime)
    (per_channel_limit : Z) (include_threads : bool) (cats : list CategoryChannel) :
  exists k : nat,
    List.filter is_channel_call
      (collect_results invoker after_dt per_channel_limit include_threads cats).1
    = map (channel_call (history_kwargs after_dt per_channel_limit))
        (take k (all_channels cats)).
Proof.
  unfold collect_results, all_channels.
  generalize {| total_hits := 0; lines := [] |} as st.
  induction cats as [|cat cats IH]; intros st; cbn [categories_loop].
  - by exists 0%nat.
  - rewrite bind_eq. simpl concat.
    destruct (channels_loop_calls invoker after_dt per_channel_limit include_threads
                cat (text_channels cat) false st) as (k & Hk & Hf & Hdone).
    destruct (channels_loop invoker after_dt per_channel_limit include_threads cat
                (text_channels cat) false st) as [t1 [s1|e]]; cbn [fst snd] in *.
    + destruct (MAX_LINES <=? len (lines s1)) eqn:Hcap; cbn [fst snd].
      * exists k. by rewrite app_nil_r, take_app_le.
      * apply Z.leb_gt in Hcap. rewrite (Hdone s1 eq_refl Hcap) in *.
        destruct (IH s1) as (k' & Hf').
        exists (length (text_channels cat) + k')%nat.
        rewrite List.filter_app, Hf, Hf', take_app_add, List.map_app.
        by rewrite firstn_all.
    + exists k. by rewrite take_app_le.
Qed.

(** ** Nothing found *)

Lemma channels_loop_no_hits (u : User) (after_dt : option datetime) (limit : Z)
    (include_threads : bool) (cat : CategoryChannel) (chs : list TextChannel)
    (hdr : bool) (st : tally) :
  Forall (no_hit_channel u (history_kwargs after_dt limit)) chs ->
  channels_loop u after_dt limit include_threads cat chs hdr st
  = (map (channel_call (history_kwargs after_dt limit)) chs, Ok st).
Proof.
  induction 1 as [|ch chs [Hnone Hend] _ IH]; cbn [channels_loop]; [done|].
  unfold channel_body. rewrite search_channel_eq, Hnone.
  assert (Hscan : match ending (ch_history ch (history_kwargs after_dt limit)) with
                  | Some e => if is_HTTPException e then Ok [] else Raise e
                  | None => Ok []
                  end = Ok ([] : list Message)).
  { destruct (ending _) as [e|]; [|done]. by rewrite (Hend e eq_refl). }
  rewrite Hscan. simpl. by rewrite IH.
Qed.

(** * Further properties of the report and of the command *)

Lemma categories_loop_no_hits (u : User) (after_dt : option datetime) (limit : Z)
    (include_threads : bool) (cats : list CategoryChannel) (st : tally) :
  Forall (no_hit_channel u (history_kwargs after_dt limit)) (all_channels cats) ->
  len (lines st) < MAX_LINES ->
  categories_loop u after_dt limit include_threads cats st
  = (map (channel_call (history_kwargs after_dt limit)) (all_channels cats), Ok st).
Proof.
  unfold all_channels. intros Hall Hlt.
  induction cats as [|cat cats IH]; cbn [categories_loop]; [done|].
  simpl in Hall. apply Forall_app in Hall as [Hcat Hrest].
  rewrite channels_loop_no_hits by done. simpl.
  apply Z.leb_gt in Hlt as Hcap. rewrite Hcap, IH by done.
  by rewrite List.map_app.
Qed.

(** X18: when no channel of the categories has a message that counts, every
    channel is asked once, in order, no thread is asked, and the answer is
    the "no pings" message. *)
Theorem no_hits_no_pings (now : datetime) (interaction : Interaction)
    (cats : list CategoryChannel) (days limit : Z) (include_threads : bool)
    (after_dt : datetime) :
  time_window now days = Ok after_dt ->
  Forall (no_hit_channel (user interaction) (history_kwargs (Some after_dt) limit))
    (all_channels cats) ->
  scan_and_report now interaction cats days limit include_threads
  = (map (channel_call (history_kwargs (Some after_dt) limit)) (all_channels cats)
     ++ [EvSendText
           (lit "No pings found for you in the selected categories and time window.")
           true],
     Ok tt).
Proof.
  intros Hwin Hall. unfold scan_and_report, lift, collect_results.
  rewrite Hwin. cbn [bind app]. rewrite categories_loop_no_hits by done.
  simpl. done.
Qed.

Lemma no_hits_no_pings_witness :
  scan_and_report a_clock quiet_interaction [cat_quiet] 7 200 true
  = ([EvChannelHistory 15 (history_kwargs (Some (a_clock - 7 * 86400000000)) 200);
      EvChannelHistory 16 (history_kwargs (Some (a_clock - 7 * 86400000000)) 200);
      EvSendText
        (lit "No pings found for you in the selected categories and time window.")
        true],
     Ok tt).
Proof.
  refine (no_hits_no_pings a_clock quiet_interaction [cat_quiet] 7 200 true
            (a_clock - 7 * 86400000000) eq_refl _).
  repeat constructor; simpl; intros; try discriminate;
    match goal with H : Some _ = Some _ |- _ => by injection H as <- end.
Defined.

Lemma lstrip_head (s : str) (c : codepoint) (t : str) :
  lstrip s = c :: t -> isspace c = false.
Proof.
  induction s as [|d s IH]; [done|]. simpl.
  destruct (isspace d) eqn:Hd; [done|]. by intros [= <- _].
Qed.

Lemma strip_not_blank (s : str) : lstrip s <> [] -> strip s <> [].
Proof.
  unfold strip. destruct (lstrip s) as [|c t] eqn:Hs; [done|]. intros _.
  by rewrite (rstrip_cons c t (lstrip_head s c t Hs)).
Qed.

Lemma category_line_not_blank (cat : CategoryChannel) : strip (category_line cat) <> [].
Proof. apply strip_not_blank. intros H. vm_compute in H. discriminate. Qed.

Lemma channel_line_not_blank (ch : TextChannel) (hits : list Message) :
  strip (channel_line ch hits) <> [].
Proof. apply strip_not_blank. intros H. vm_compute in H. discriminate. Qed.

Lemma thread_line_not_blank (th : Thread) (msgs : list Message) :
  strip (thread_line th msgs) <> [].
Proof. apply strip_not_blank. intros H. vm_compute in H. discriminate. Qed.

Lemma truncation_note_not_blank : strip truncation_note <> [].
Proof. vm_compute. discriminate. Qed.

Lemma channel_body_not_blank (u : User) (after_dt : option datetime) (limit : Z)
    (include_threads : bool) (cat : CategoryChannel) (ch : TextChannel)
    (hdr : bool) (st : tally) (t : list event) (st' : tally) (hdr' broke : bool) :
  channel_body u after_dt limit include_threads cat ch hdr st
  = (t, Ok (st', hdr', broke)) ->
  Forall (fun l => strip l <> []) (lines st) ->
  Forall (fun l => strip l <> []) (lines st').
Proof.
  intros [(_ & -> & _)|(_ & _ & ths & tt & _ & _ & Hst)]%channel_body_inv Hall;
    [done|].
  cbv zeta in Hst.
  assert (H3 : Forall (fun l => strip l <> [])
                 (lines (fold_left add_thread ths
                           {| total_hits := total_hits st
                                            + len (direct_hits u (history_kwargs after_dt limit) ch);
                              lines := (if negb hdr then lines st ++ [category_line cat]
                                        else lines st)
                                       ++ [channel_line ch
                                             (direct_hits u (history_kwargs after_dt limit) ch)] |}))).
  { rewrite fold_add_thread_lines. simpl. apply Forall_app. split.
    - apply Forall_app. split.
      + destruct (negb hdr); [|done]. apply Forall_app. split; [done|].
        constructor; [apply category_line_not_blank|constructor].
      + constructor; [apply channel_line_not_blank|constructor].
    - apply Forall_forall. intros l Hl.
      apply list_elem_of_In, in_map_iff in Hl as (h & <- & _).
      apply thread_line_not_blank. }
  destruct (MAX_LINES <=? _); destruct Hst as [-> _]; [|done]. simpl.
  apply Forall_app. split; [done|].
  constructor; [apply truncation_note_not_blank|constructor].
Qed.

Lemma collect_lines_not_blank (u : User) (after_dt : option datetime) (limit : Z)
    (include_threads : bool) (cats : list CategoryChannel) (t : list event)
    (st : tally) :
  collect_results u after_dt limit include_threads cats = (t, Ok st) ->
  Forall (fun l => strip l <> []) (lines st).
Proof.
  unfold collect_results.
  assert (Hch : forall cat chs hdr s0 t0 s1,
             channels_loop u after_dt limit include_threads cat chs hdr s0
             = (t0, Ok s1) ->
             Forall (fun l => strip l <> []) (lines s0) ->
             Forall (fun l => strip l <> []) (lines s1)).
  { intros cat chs. induction chs as [|ch chs IH]; intros hdr s0 t0 s1;
      cbn [channels_loop].
    - by intros [<- _]%ret_ok.
    - intros ([[s2 h2] broke] & t1 & t2 & Hb & Hk & _)%bind_ok Hall.
      pose proof (channel_body_not_blank _ _ _ _ _ _ _ _ _ _ _ _ Hb Hall) as H2.
      destruct broke; [by apply ret_ok in Hk as [<- _]|by eapply IH]. }
  assert (Hinit : Forall (fun l => strip l <> [])
                    (lines {| total_hits := 0; lines := [] |})) by constructor.
  revert Hinit. generalize {| total_hits := 0; lines := [] |} as s0. revert t.
  induction cats as [|cat cats IH]; intros t s0 Hall; cbn [categories_loop].
  - by intros [<- _]%ret_ok.
  - intros (s1 & t1 & t2 & Hloop & Hk & _)%bind_ok.
    pose proof (Hch _ _ _ _ _ _ Hloop Hall) as H1.
    destruct (_ <=? _); [by apply ret_ok in Hk as [<- _]|by eapply IH].
Qed.

(** A list with a line that is not blank makes at least one field. *)
Lemma chunk_fields_of_line (l : str) (ls : list str) (prefix : str) :
  strip l <> [] -> chunk_lines_into_fields (l :: ls) prefix <> [].
Proof.
  intros Hl Hnone.
  destruct (chunk_fields_groups (l :: ls) prefix) as (groups & Hval & Hcat & _).
  rewrite Hnone in Hval. symmetry in Hval. apply List.map_eq_nil in Hval.
  subst groups. unfold kept_lines in Hcat. simpl in Hcat.
  apply truthy_true in Hl. by rewrite Hl in Hcat.
Qed.

(** The loop over the categories keeps the count and the lines in step. *)
Lemma categories_loop_tally (u : User) (after_dt : option datetime) (limit : Z)
    (include_threads : bool) (cats : list CategoryChannel) (s0 : tally)
    (t : list event) (s1 : tally) :
  categories_loop u after_dt limit include_threads cats s0 = (t, Ok s1) ->
  0 <= total_hits s0 /\ (total_hits s0 = 0 <-> lines s0 = []) ->
  0 <= total_hits s1 /\ (total_hits s1 = 0 <-> lines s1 = []).
Proof.
  revert s0 t. induction cats as [|cat cats IH]; intros s0 t; cbn [categories_loop].
  - by intros [<- _]%ret_ok.
  - intros (s2 & t1 & t2 & Hloop & Hk & _)%bind_ok Hinv.
    assert (Hinv2 : 0 <= total_hits s2 /\ (total_hits s2 = 0 <-> lines s2 = [])).
    { clear Hk IH. revert Hloop Hinv.
      generalize false as hdr. revert s0 t1.
      induction (text_channels cat) as [|ch chs IHch]; intros s0 t1 hdr;
        cbn [channels_loop].
      - by intros [<- _]%ret_ok.
      - intros ([[s3 h3] broke] & t3 & t4 & Hbody & Hk & _)%bind_ok Hinv.
        pose proof (channel_body_tally _ _ _ _ _ _ _ _ _ _ _ _ Hbody Hinv) as Hinv3.
        destruct broke; [by apply ret_ok in Hk as [<- _]|by eapply IHch]. }
    destruct (_ <=? _); [by apply ret_ok in Hk as [<- _]|by eapply IH].
Qed.

(** X19: the embed the command builds for a run with hits has at least one
    field and at most 24, within the 25 the platform allows, and none of
    its fields is inline. *)
Theorem sent_embed_field_count (invoker : User) (after_dt : option datetime)
    (per_channel_limit : Z) (include_threads : bool) (cats : list CategoryChannel)
    (t : list event) (st : tally) (days : Z) (embed : Embed) (file : option File) :
  collect_results invoker after_dt per_channel_limit include_threads cats
  = (t, Ok st) ->
  total_hits st <> 0 ->
  build_report (total_hits st) invoker days (lines st) = Ok (embed, file) ->
  (1 <= length (embed_fields embed) <= 24)%nat
  /\ Forall (fun f => f.2 = false) (embed_fields embed).
Proof.
  intros Hrun Hhits Hrep.
  assert (Hne : chunk_lines_into_fields (lines st) (lit "Results") <> []).
  { intros Hnone.
    pose proof (collect_lines_not_blank _ _ _ _ _ _ _ Hrun) as Hnb.
    destruct (categories_loop_tally _ _ _ _ _ _ _ _ Hrun) as [_ Hiff]; [done|].
    destruct (lines st) as [|l ls]; [by apply Hhits, Hiff|].
    inversion Hnb; subst. by apply (chunk_fields_of_line l ls (lit "Results")). }
  unfold build_report in Hrep. cbv zeta in Hrep.
  destruct (EMBED_MAX_FIELDS <=? _) eqn:Hcap.
  - destruct (utf8_encode _); [|done]. injection Hrep as <- _. simpl.
    rewrite add_fields_fields. simpl. rewrite length_app, length_map, length_take.
    change (Z.to_nat (10 `min` (EMBED_MAX_FIELDS - 1))) with 10%nat.
    cbn [length]. split; [lia|]. apply Forall_app. split; [|by repeat constructor].
    apply Forall_forall. intros f Hf.
    by apply list_elem_of_In, in_map_iff in Hf as (? & <- & _).
  - injection Hrep as <- _. rewrite add_fields_fields. simpl.
    rewrite length_map. apply Z.leb_gt in Hcap. unfold len, EMBED_MAX_FIELDS in Hcap.
    split.
    + destruct (chunk_lines_into_fields _ _); [done|]. simpl. simpl in Hcap. lia.
    + apply Forall_forall. intros f Hf.
      by apply list_elem_of_In, in_map_iff in Hf as (? & <- & _).
Qed.

Lemma sent_embed_field_count_witness :
  collect_results alice None 200 true [with_channels cat_big [ch_crowded]]
  = (crowded_trace, Ok crowded_tally)
  /\ total_hits crowded_tally <> 0
  /\ build_report (total_hits crowded_tally) alice 7 (lines crowded_tally)
     = Ok (crowded_report.1, crowded_report.2)
  /\ (1 <= length (embed_fields crowded_report.1) <= 24)%nat.
Proof.
  assert (Hrun : collect_results alice None 200 true
                   [with_channels cat_big [ch_crowded]]
                 = (crowded_trace, Ok crowded_tally)).
  { vm_compute. reflexivity. }
  assert (Hhits : total_hits crowded_tally <> 0) by (vm_compute; discriminate).
  assert (Hrep : build_report (total_hits crowded_tally) alice 7 (lines crowded_tally)
                 = Ok (crowded_report.1, crowded_report.2)).
  { vm_compute. reflexivity. }
  split; [exact Hrun|]. split; [exact Hhits|]. split; [exact Hrep|].
  exact (proj1 (sent_embed_field_count alice None 200 true _ _ _ 7 _ _
                  Hrun Hhits Hrep)).
Defined.

Lemma add_fields_header (e : Embed) (fs : list field) :
  title (add_fields e fs) = title e /\ description (add_fields e fs) = description e.
Proof.
  unfold add_fields. revert e. induction fs as [|f fs IH]; intros e; [done|].
  simpl. destruct (IH (add_field e f.1 f.2 false)) as [-> ->]. done.
Qed.

(** X20: with fewer than 25 fields the report needs no attachment and
    cannot fail: every field of the formatter is in the embed, in order and
    not inline, under the title and the description of the command. *)
Theorem small_report_complete (total : Z) (invoker : User) (days : Z)
    (report_lines : list str) :
  len (chunk_lines_into_fields report_lines (lit "Results")) < EMBED_MAX_FIELDS ->
  exists embed,
    build_report total invoker days report_lines = Ok (embed, None)
    /\ embed_fields embed
       = map (fun f : field => (f.1, f.2, false))
           (chunk_lines_into_fields report_lines (lit "Results"))
    /\ title embed = lit "Mentions Found"
    /\ description embed
       = lit "Found **" ++ str_of_int total ++ lit "** mention(s) for <@"
         ++ str_of_int (user_id invoker) ++ lit "> in the last **"
         ++ str_of_int days ++ lit "** day(s).".
Proof.
  intros Hfew. unfold build_report. cbv zeta.
  apply Z.leb_gt in Hfew. rewrite Hfew. eexists. split; [reflexivity|].
  split_and!.
  - by rewrite add_fields_fields.
  - by rewrite (proj1 (add_fields_header _ _)).
  - rewrite (proj2 (add_fields_header _ _)). simpl. unfold mention.
    by rewrite <- !app_assoc.
Qed.

Lemma small_report_complete_witness :
  len (chunk_lines_into_fields thirty_lines (lit "Results")) < EMBED_MAX_FIELDS
  /\ exists embed,
       build_report 30 alice 7 thirty_lines = Ok (embed, None)
       /\ embed_fields embed
          = map (fun f : field => (f.1, f.2, false))
              (chunk_lines_into_fields thirty_lines (lit "Results"))
       /\ title embed = lit "Mentions Found"
       /\ description embed
          = lit "Found **" ++ str_of_int 30 ++ lit "** mention(s) for <@"
            ++ str_of_int (user_id alice) ++ lit "> in the last **"
            ++ str_of_int 7 ++ lit "** day(s).".
Proof.
  assert (H : len (chunk_lines_into_fields thirty_lines (lit "Results"))
              < EMBED_MAX_FIELDS) by (vm_compute; reflexivity).
  split; [exact H|]. exact (small_report_complete 30 alice 7 thirty_lines H).
Defined.

Lemma scan_and_report_protocol (now : datetime) (interaction : Interaction)
    (cats : list CategoryChannel) (days limit : Z) (include_threads : bool) :
  exists calls,
    Forall (fun ev => is_history_call ev = true) calls
    /\ match (scan_and_report now interaction cats days limit include_threads).2 with
       | Ok _ =>
           exists reply,
             is_ephemeral_send reply = true
             /\ (scan_and_report now interaction cats days limit include_threads).1
                = calls ++ [reply]
       | Raise _ =>
           (scan_and_report now interaction cats days limit include_threads).1 = calls
       end.
Proof.
  unfold scan_and_report, lift. rewrite bind_eq. cbn [fst snd].
  destruct (time_window now days) as [after_dt|e]; [|by exists []].
  rewrite bind_eq. cbn [app].
  assert (Hcalls : Forall (fun ev => is_history_call ev = true)
                     (collect_results (user interaction) (Some after_dt) limit
                        include_threads cats).1).
  { apply Forall_forall. intros ev Hev. unfold collect_results in Hev.
    apply categories_loop_trace in Hev
      as (cat & ch & _ & _ & [->|(_ & _ & th & _ & _ & ->)]); done. }
  destruct (collect_results (user interaction) (Some after_dt) limit
              include_threads cats) as [t [st|e]]; cbn [fst snd] in *.
  2:{ by exists t. }
  exists t. split; [done|].
  destruct (total_hits st =? 0).
  - unfold emit. cbn [fst snd]. eexists. split; [|reflexivity]. done.
  - rewrite bind_eq. cbn [fst snd].
    destruct (build_report _ _ _ _) as [[embed file]|e]; unfold emit;
      cbn [fst snd app].
    + eexists. split; [|reflexivity]. done.
    + by rewrite app_nil_r.
Qed.

(** X21: the command answers once.  Every run starts by acknowledging the
    interaction; then come only history calls; a run that returns ends with
    exactly one follow-up message, visible to the invoking user only; a run
    that raises has sent none. *)
Theorem find_collabs_protocol (lower : str -> str) (now : datetime)
    (interaction : Interaction) (spec : str) (days limit : Z) (include_threads : bool) :
  exists calls,
    Forall (fun ev => is_history_call ev = true) calls
    /\ match (find_collabs lower now interaction spec days limit include_threads).2 with
       | Ok _ =>
           exists reply,
             is_ephemeral_send reply = true
             /\ (find_collabs lower now interaction spec days limit include_threads).1
                = EvDefer true true :: calls ++ [reply]
       | Raise _ =>
           (find_collabs lower now interaction spec days limit include_threads).1
           = EvDefer true true :: calls
       end.
Proof.
  unfold find_collabs. rewrite bind_eq. cbn [emit fst snd app].
  destruct (guild interaction) as [g|].
  2:{ exists []. split; [constructor|]. unfold emit. cbn [fst snd app].
      eexists. split; [|reflexivity]. done. }
  assert (Hscan : forall cats,
             exists calls,
               Forall (fun ev => is_history_call ev = true) calls
               /\ match (scan_and_report now interaction cats days limit
                           include_threads).2 with
                  | Ok _ =>
                      exists reply,
                        is_ephemeral_send reply = true
                        /\ EvDefer true true
                             :: (scan_and_report now interaction cats days limit
                                   include_threads).1
                           = EvDefer true true :: calls ++ [reply]
                  | Raise _ =>
                      EvDefer true true
                        :: (scan_and_report now interaction cats days limit
                              include_threads).1
                      = EvDefer true true :: calls
                  end).
  { intros cats.
    destruct (scan_and_report_protocol now interaction cats days limit include_threads)
      as (calls & Hcalls & H).
    exists calls. split; [done|].
    destruct (scan_and_report _ _ _ _ _ _).2.
    - destruct H as (reply & ? & ->). by exists reply.
    - by rewrite H. }
  destruct (truthy (strip spec)); [|apply Hscan].
  unfold lift. rewrite bind_eq. cbn [fst snd app].
  destruct (_parse_category_spec lower g spec) as [targets|e].
  2:{ exists []. by split; [constructor|]. }
  destruct (truthy targets); cbn [negb]; [apply Hscan|].
  exists []. split; [constructor|]. unfold emit. cbn [fst snd app].
  eexists. split; [|reflexivity]. done.
Qed.

(** * Further properties of the agent gateway *)

(** X22: when [run_agent_call] raises.  It raises what [agent.invoke]
    raises; what the conversion raises when that is not an [Exception]; and
    what [str] raises when the conversion raised an [Exception] and the
    fallback then fails too.  It raises in no other case. *)
Theorem run_agent_call_raises_iff {obj : Type} `{PyRuntime obj}
    (agent_invoke : str -> outcome (gmap string obj)) (message : str) (e : exn) :
  run_agent_call agent_invoke message = Raise e
  <-> agent_invoke message = Raise e
      \/ exists result,
           agent_invoke message = Ok result
           /\ let structured :=
                default py_None (result !! "structured_response"%string) in
              (convert structured = Raise e /\ is_Exception e = false)
              \/ (exists e0, convert structured = Raise e0 /\ is_Exception e0 = true
                             /\ py_str structured = Raise e).
Proof.
  unfold run_agent_call.
  destruct (agent_invoke message) as [result|e1].
  2:{ split; [intros [= ->]; by left|]. by intros [[= ->]|(? & ? & _)]. }
  unfold normalize. split.
  - intros Hn. right. exists result. split; [done|]. cbv zeta.
    destruct (convert _) as [out|e0] eqn:Hc; [done|].
    destruct (is_Exception e0) eqn:He0.
    + right. exists e0. split_and!; [done..|]. unfold stringify in Hn.
      destruct (py_str _) as [s|e1]; [done|]. by injection Hn as ->.
    + left. by injection Hn as ->.
  - intros [?|(result' & [= <-] & Hcases)]; [done|]. cbv zeta in Hcases.
    destruct Hcases as [[-> ->]|(e0 & -> & -> & Hs)]; [done|].
    unfold stringify. by rewrite Hs.
Qed.

Lemma add_items_fields {obj : Type} `{PyRuntime obj} `{PyMapping obj}
    (items : list (obj * obj)) (e : ResponseEmbed) (fs : list (str * str * bool)) :
  field_texts items = Some fs ->
  add_items items e
  = Ok {| re_title := re_title e; re_description := re_description e;
          re_fields := re_fields e ++ fs |}.
Proof.
  revert e fs. induction items as [|[k v] items IH]; intros e fs; simpl.
  - intros [= <-]. rewrite app_nil_r. by destruct e.
  - destruct (capitalize k) as [name|x]; [|done].
    destruct (py_str v) as [value|x]; [|done].
    destruct (field_texts items) as [fs'|]; [|done]. intros [= <-].
    rewrite (IH _ fs') by done. simpl. by rewrite <- app_assoc.
Qed.

Lemma add_items_raises {obj : Type} `{PyRuntime obj} `{PyMapping obj}
    (items : list (obj * obj)) (e : ResponseEmbed) :
  field_texts items = None -> exists x, add_items items e = Raise x.
Proof.
  revert e. induction items as [|[k v] items IH]; intros e; simpl; [done|].
  destruct (capitalize k) as [name|x]; [|by eexists].
  destruct (py_str v) as [value|x]; [|by eexists].
  destruct (field_texts items) as [fs'|]; [done|]. intros _. by apply IH.
Qed.

(** X23: a structured answer becomes one field per item.  When the agent
    answers with a model object whose dump is a mapping, the reply is
    titled "Ha-chan's Response", has no description, and has one field per
    item of the dump, in the order of the dump and not inline, named by the
    capitalized key with the stringified value; when a key cannot be
    capitalized or a value cannot be stringified, the command raises and
    sends no reply. *)
Theorem structured_answer_fields {obj : Type} `{PyRuntime obj} `{PyMapping obj}
    (agent_invoke : str -> outcome (gmap string obj)) (message : str)
    (result : gmap string obj) (structured dump : obj) :
  agent_invoke message = Ok result ->
  result !! "structured_response"%string = Some structured ->
  isinstance_BaseModel structured = true ->
  model_dump structured = Ok dump ->
  isinstance_dict dump = true ->
  match field_texts (dict_items dump) with
  | Some fs =>
      ask_reply agent_invoke message
      = Ok {| re_title := lit "Ha-chan's Response"; re_description := None;
              re_fields := fs |}
  | None => exists x, ask_reply agent_invoke message = Raise x
  end.
Proof.
  intros Hinv Hkey Hmodel Hdump Hdict.
  unfold ask_reply, run_agent_call, normalize, convert.
  rewrite Hinv, Hkey. simpl default. rewrite Hmodel, Hdump.
  unfold render_output. rewrite Hdict.
  destruct (field_texts (dict_items dump)) as [fs|] eqn:Hfs.
  - by rewrite (add_items_fields _ _ fs).
  - by apply add_items_raises.
Qed.

Lemma structured_answer_fields_witness :
  ask_reply (fun _ => Ok {[ "structured_response"%string := contact_a ]})
    (lit "who is A?")
  = Ok {| re_title := lit "Ha-chan's Response"; re_description := None;
          re_fields := [(lit "Name", lit "A", false);
                        (lit "Email", lit "a@x.com", false);
                        (lit "Phone", lit "123", false)] |}.
Proof.
  exact (structured_answer_fields
           (fun _ => Ok {[ "structured_response"%string := contact_a ]})
           (lit "who is A?") _ contact_a
           (SDict [(lit "name", lit "A"); (lit "email", lit "a@x.com");
                   (lit "phone", lit "123")])
           eq_refl eq_refl eq_refl eq_refl eq_refl).
Defined.

(** X24: an answer without a structured response is answered with text.
    When the result of the agent has no [structured_response], and [None]
    is, as in Python, neither a model nor a mapping, the reply has no field
    and its description is [str(None)]. *)
Theorem missing_response_described {obj : Type} `{PyRuntime obj} `{PyMapping obj}
    (agent_invoke : str -> outcome (gmap string obj)) (message : str)
    (result : gmap string obj) (text : str) :
  agent_invoke message = Ok result ->
  result !! "structured_response"%string = None ->
  isinstance_BaseModel py_None = false ->
  isinstance_dict py_None = false ->
  py_str py_None = Ok text ->
  ask_reply agent_invoke message
  = Ok {| re_title := lit "Ha-chan's Response"; re_description := Some text;
          re_fields := [] |}.
Proof.
  intros Hinv Hkey Hmodel Hdict Hstr.
  unfold ask_reply, run_agent_call, normalize, convert, stringify.
  rewrite Hinv, Hkey. simpl default. by rewrite Hmodel, Hdict, Hstr.
Qed.

Lemma missing_response_described_witness :
  ask_reply (fun _ => Ok (∅ : gmap string simple_obj)) (lit "anyone?")
  = Ok {| re_title := lit "Ha-chan's Response";
          re_description := Some (lit "None"); re_fields := [] |}.
Proof.
  exact (missing_response_described (fun _ => Ok (∅ : gmap string simple_obj))
           (lit "anyone?") ∅ (lit "None") eq_refl eq_refl eq_refl eq_refl eq_refl).
Defined.

(** * Properties of [collect_collab_metadata] *)

Lemma summary_not_empty (isoformat : datetime -> str) (ch : Tools.Channel) :
  Tools.summary isoformat ch <> [].
Proof.
  unfold Tools.summary. intros Hnil.
  apply app_eq_nil in Hnil as [_ Hnil]. by apply app_eq_nil in Hnil as [? _].
Qed.

Lemma summary_has_paren (isoformat : datetime -> str) (ch : Tools.Channel) :
  40%N ∈ Tools.summary isoformat ch.
Proof.
  unfold Tools.summary. rewrite !elem_of_app. right. left.
  apply list_elem_of_In. vm_compute. tauto.
Qed.

Lemma joined_summaries (isoformat : datetime -> str) (chs : list Tools.Channel) :
  chs <> [] ->
  join nl (map (Tools.summary isoformat) chs) <> []
  /\ 40%N ∈ join nl (map (Tools.summary isoformat) chs).
Proof.
  destruct chs as [|ch chs]; [done|]. intros _. simpl map. rewrite join_cons.
  pose proof (summary_not_empty isoformat ch) as Hne.
  pose proof (summary_has_paren isoformat ch) as Hp.
  destruct (truthy _); [|done]. split.
  - by destruct (Tools.summary isoformat ch).
  - apply elem_of_app. by left.
Qed.

(** X25: the summary is never the empty string; without a guild it is "No
    guild context available."; for a guild it is "No collab channels
    found." exactly when no channel is selected, and otherwise the summaries
    of the selected channels, in order, joined by newlines. *)
Theorem metadata_summary_shape (isoformat : datetime -> str) (g : Tools.Guild)
    (collab_category_id : option Z) :
  Tools.collect_collab_metadata isoformat None collab_category_id
  = lit "No guild context available."
  /\ Tools.collect_collab_metadata isoformat (Some g) collab_category_id <> []
  /\ (Tools.collect_collab_metadata isoformat (Some g) collab_category_id
      = lit "No collab channels found."
      <-> Tools.selected_channels g collab_category_id = [])
  /\ Tools.collect_collab_metadata isoformat (Some g) collab_category_id
     = match Tools.selected_channels g collab_category_id with
       | [] => lit "No collab channels found."
       | chs => join nl (map (Tools.summary isoformat) chs)
       end.
Proof.
  unfold Tools.collect_collab_metadata. cbv zeta.
  destruct (Tools.selected_channels g collab_category_id) as [|ch chs] eqn:Hsel.
  - by split_and!.
  - destruct (joined_summaries isoformat (ch :: chs)) as [Hne Hp]; [done|].
    apply truthy_true in Hne as Ht. rewrite Ht. split_and!; try done.
    split; [|done]. intros Heq. rewrite Heq in Hp. apply list_elem_of_In in Hp.
    vm_compute in Hp. intuition discriminate.
Qed.

(** X26: which channels are summarized.  An identifier that is not 0 and
    does not name a category selects nothing, whatever text channels the
    guild has, and the summary is "No collab channels found."; the
    identifier 0 counts as no identifier, and every text channel of the
    guild is summarized. *)
Theorem metadata_category_selection (isoformat : datetime -> str) (g : Tools.Guild)
    (id : Z) :
  id <> 0 ->
  (forall chs, Tools.get_channel g id <> Some (Tools.Category chs)) ->
  Tools.collect_collab_metadata isoformat (Some g) (Some id)
  = lit "No collab channels found."
  /\ Tools.collect_collab_metadata isoformat (Some g) (Some 0)
     = Tools.collect_collab_metadata isoformat (Some g) None.
Proof.
  intros Hid Hcat. split; [|done].
  unfold Tools.collect_collab_metadata, Tools.selected_channels.
  apply Z.eqb_neq in Hid. rewrite Hid. simpl.
  destruct (Tools.get_channel g id) as [[chs|]|]; [|done..].
  by destruct (Hcat chs).
Qed.

Lemma metadata_category_selection_witness :
  78 <> 0
  /\ (forall chs, Tools.get_channel Tools.small_guild 78 <> Some (Tools.Category chs))
  /\ Tools.collect_collab_metadata Tools.plain_isoformat (Some Tools.small_guild)
       (Some 78)
     = lit "No collab channels found.".
Proof.
  assert (Hcat : forall chs,
             Tools.get_channel Tools.small_guild 78 <> Some (Tools.Category chs)).
  { intros chs. simpl. discriminate. }
  split; [lia|]. split; [exact Hcat|].
  refine (proj1 (metadata_category_selection Tools.plain_isoformat
                   Tools.small_guild 78 _ Hcat)).
  lia.
Defined.

(** * Identifiers, printed and read back *)

Lemma digits_of_uint (d : Decimal.uint) :
  forallb is_ascii_digit (lit (NilEmpty.string_of_uint d)) = true.
Proof. induction d; simpl; [done|..]; exact IHd. Qed.

Lemma decimal_digits_of_uint (d : Decimal.uint) (acc : Z) :
  decimal_digits (lit (NilEmpty.string_of_uint d)) acc
  = Some (acc * Z.of_N (10 ^ DecimalPos.Unsigned.usize d)
          + Z.of_N (DecimalPos.Unsigned.of_lu (Decimal.rev d))).
Proof.
  revert acc.
  induction d as [|d IH|d IH|d IH|d IH|d IH|d IH|d IH|d IH|d IH|d IH]; intros acc;
    [simpl; f_equal; lia|..];
    change (lit (NilEmpty.string_of_uint (?D d)))
      with (N_of_ascii
              match NilEmpty.string_of_uint (D Decimal.Nil) with
              | String a _ => a
              | EmptyString => Ascii.zero
              end :: lit (NilEmpty.string_of_uint d));
    cbn [NilEmpty.string_of_uint decimal_digits];
    match goal with
    | |- context [decimal_cp ?c] =>
        let v := eval vm_compute in (decimal_cp c) in
        change (decimal_cp c) with v
    end;
    cbv beta iota; rewrite IH; f_equal;
    match goal with
    | |- context [Decimal.rev (?D d)] =>
        change (Decimal.rev (D d)) with (Decimal.revapp d (D Decimal.Nil));
        rewrite (DecimalPos.Unsigned.of_lu_revapp d (D Decimal.Nil))
    end;
    cbn [DecimalPos.Unsigned.usize DecimalPos.Unsigned.of_lu];
    rewrite N.pow_succ_r'; lia.
Qed.

(** Reading back the decimal text of a number that is not negative gives
    the number, when the text is within the digit limit of [int]. *)
Lemma int_of_str_of_int (n : Z) :
  0 <= n ->
  len (str_of_int n) <= int_max_str_digits ->
  int_of_str (str_of_int n) = Some n.
Proof.
  intros Hn Hlen. unfold int_of_str.
  apply Z.ltb_ge in Hlen. rewrite Hlen.
  unfold str_of_int. destruct n as [|p|p]; [reflexivity| |lia].
  cbn [Z.to_int NilEmpty.string_of_int]. rewrite decimal_digits_of_uint.
  rewrite <- DecimalPos.Unsigned.of_uint_alt, DecimalPos.Unsigned.of_to. f_equal.
Qed.

Lemma str_of_int_digits (n : Z) :
  0 <= n -> str_of_int n <> [] /\ forallb is_ascii_digit (str_of_int n) = true.
Proof.
  intros Hn. unfold str_of_int. destruct n as [|p|p]; [done| |lia].
  cbn [Z.to_int NilEmpty.string_of_int]. split; [|apply digits_of_uint].
  pose proof (DecimalPos.Unsigned.to_uint_nonnil p) as Hnil.
  by destruct (Pos.to_uint p).
Qed.

Lemma ascii_digit_facts (c : codepoint) :
  is_ascii_digit c = true ->
  isdigit_cp c = true /\ isspace c = false /\ (c =? 44)%N = false.
Proof.
  unfold is_ascii_digit. intros [Hlo Hhi]%andb_true_iff.
  apply N.leb_le in Hlo. apply N.leb_le in Hhi. split_and!.
  - unfold isdigit_cp, digit_ranges. cbn [existsb]. unfold in_range at 1.
    cbn [fst snd]. apply N.leb_le in Hlo. apply N.leb_le in Hhi.
    by rewrite Hlo, Hhi.
  - unfold isspace.
    repeat match goal with
      | |- context [(?a <=? ?b)%N] =>
          first [ replace (a <=? b)%N with true by (symmetry; apply N.leb_le; lia)
                | replace (a <=? b)%N with false by (symmetry; apply N.leb_gt; lia) ]
      | |- context [(c =? ?b)%N] =>
          replace (c =? b)%N with false by (symmetry; apply N.eqb_neq; lia)
      end.
    reflexivity.
  - apply N.eqb_neq. lia.
Qed.

Lemma strip_no_space (s : str) :
  forallb (fun c => negb (isspace c)) s = true -> strip s = s.
Proof.
  intros Hs.
  assert (Hl : forall t, forallb (fun c => negb (isspace c)) t = true -> lstrip t = t).
  { intros [|c t]; [done|]. simpl. intros [Hc _]%andb_true_iff.
    apply negb_true_iff in Hc. by rewrite Hc. }
  unfold strip, rstrip. rewrite (Hl s Hs), Hl, rev_involutive; [done|].
  rewrite forallb_forall in *. intros c Hc. apply Hs. by apply in_rev.
Qed.

Lemma split_on_absent (sep : codepoint) (s : str) :
  forallb (fun c => negb (c =? sep)%N) s = true -> split_on sep s = [s].
Proof.
  induction s as [|c s IH]; [done|]. simpl. intros [Hc Hs]%andb_true_iff.
  apply negb_true_iff in Hc. by rewrite Hc, IH.
Qed.

(** X27: an identifier printed, then read.  The decimal text of an
    identifier that is not negative, as the report prints it in a category
    header, is a spec that resolves to the category the guild has under
    that identifier, while the text is within the digit limit of [int]. *)
Theorem printed_id_resolves (lower : str -> str) (guild : Guild) (n : Z)
    (c : CategoryChannel) :
  0 <= n ->
  len (str_of_int n) <= int_max_str_digits ->
  get_channel guild n = Some (GCategory c) ->
  _parse_category_spec lower guild (str_of_int n) = Ok [c].
Proof.
  intros Hn Hlen Hget.
  destruct (str_of_int_digits n Hn) as [Hne Hdig].
  assert (Hall : forall c, In c (str_of_int n) ->
             isdigit_cp c = true /\ isspace c = false /\ (c =? 44)%N = false).
  { intros ch Hch. apply ascii_digit_facts. rewrite forallb_forall in Hdig.
    by apply Hdig. }
  assert (Hstrip : strip (str_of_int n) = str_of_int n).
  { apply strip_no_space, forallb_forall. intros ch Hch.
    by destruct (Hall ch Hch) as (_ & -> & _). }
  assert (Hparts : spec_parts (str_of_int n) = [str_of_int n]).
  { unfold spec_parts. rewrite split_on_absent.
    - cbn [List.filter]. rewrite Hstrip. apply truthy_true in Hne. rewrite Hne.
      cbn [map]. by rewrite Hstrip.
    - apply forallb_forall. intros ch Hch. destruct (Hall ch Hch) as (_ & _ & ->).
      done. }
  assert (Hd : isdigit (str_of_int n) = true).
  { unfold isdigit. apply truthy_true in Hne. rewrite Hne. simpl.
    apply forallb_forall. intros ch Hch. by destruct (Hall ch Hch) as (-> & _). }
  unfold _parse_category_spec. apply truthy_true in Hne as Ht. rewrite Ht.
  cbn [negb]. rewrite Hparts. cbn [id_pass name_pass].
  rewrite Hd, (int_of_str_of_int n Hn Hlen), Hget. simpl.
  rewrite bool_decide_eq_false_2 by set_solver. simpl. done.
Qed.

Lemma printed_id_resolves_witness :
  0 <= 123456789012345678
  /\ len (str_of_int 123456789012345678) <= int_max_str_digits
  /\ get_channel example_guild 123456789012345678 = Some (GCategory cat_dev)
  /\ _parse_category_spec ascii_lower example_guild (str_of_int 123456789012345678)
     = Ok [cat_dev].
Proof.
  assert (H0 : 0 <= 123456789012345678) by lia.
  assert (Hl : len (str_of_int 123456789012345678) <= int_max_str_digits).
  { vm_compute. discriminate. }
  split; [exact H0|]. split; [exact Hl|]. split; [reflexivity|].
  exact (printed_id_resolves ascii_lower example_guild 123456789012345678 cat_dev
           H0 Hl eq_refl).
Defined.

(** * When the report cannot be built *)

Lemma utf8_encode_cp_some (c : codepoint) (bs : list N) :
  utf8_encode_cp c = Some bs -> scalar_value c = true.
Proof.
  unfold utf8_encode_cp, scalar_value.
  destruct (N.ltb_spec c 128).
  { intros _. replace (c <? 55296)%N with true by (symmetry; apply N.ltb_lt; lia).
    done. }
  destruct (N.ltb_spec c 2048).
  { intros _. replace (c <? 55296)%N with true by (symmetry; apply N.ltb_lt; lia).
    done. }
  destruct (N.ltb_spec c 65536).
  { destruct (N.leb_spec 55296 c); [destruct (N.leb_spec c 57343)|]; cbn [andb];
      [done|..]; intros _.
    - replace (c <? 55296)%N with false by (symmetry; apply N.ltb_ge; lia).
      replace (57343 <? c)%N with true by (symmetry; apply N.ltb_lt; lia).
      replace (c <? 1114112)%N with true by (symmetry; apply N.ltb_lt; lia). done.
    - replace (c <? 55296)%N with true by (symmetry; apply N.ltb_lt; lia). done. }
  destruct (N.ltb_spec c 1114112); [|done]. intros _.
  replace (c <? 55296)%N with false by (symmetry; apply N.ltb_ge; lia).
  replace (57343 <? c)%N with true by (symmetry; apply N.ltb_lt; lia).
  replace (c <? 1114112)%N with true by (symmetry; apply N.ltb_lt; lia). done.
Qed.

Lemma utf8_encode_none_iff (s : str) : utf8_encode s = None <-> ~ encodable s.
Proof.
  split.
  - intros Hnone Henc. destruct (utf8_roundtrip s Henc) as (bs & Hbs & _).
    by rewrite Hbs in Hnone.
  - intros Hn. destruct (utf8_encode s) as [bs|] eqn:Hs; [|done]. destruct Hn.
    unfold encodable. revert bs Hs. induction s as [|c s IH]; intros bs; [done|].
    simpl. destruct (utf8_encode_cp c) as [b1|] eqn:Hc; [|done].
    destruct (utf8_encode s) as [b2|]; [|done]. intros _.
    by rewrite (utf8_encode_cp_some c b1 Hc), (IH b2).
Qed.

(** X28: the report fails in one case only: with 25 fields or more, when
    the lines hold a code point that UTF-8 cannot carry; what is raised is
    [UnicodeEncodeError].  With fewer fields nothing is encoded and the
    report is built whatever the lines hold. *)
Theorem report_raises_iff (total : Z) (invoker : User) (days : Z)
    (report_lines : list str) (e : exn) :
  build_report total invoker days report_lines = Raise e
  <-> e = UnicodeEncodeError
      /\ EMBED_MAX_FIELDS <= len (chunk_lines_into_fields report_lines (lit "Results"))
      /\ ~ encodable (join nl report_lines).
Proof.
  unfold build_report. cbv zeta.
  destruct (EMBED_MAX_FIELDS <=? _) eqn:Hcap.
  - apply Z.leb_le in Hcap.
    destruct (utf8_encode (join nl report_lines)) as [bs|] eqn:Hs.
    + split; [done|]. intros (_ & _ & Hn). apply utf8_encode_none_iff in Hn.
      by rewrite Hs in Hn.
    + apply utf8_encode_none_iff in Hs. split; [by intros [= <-]|by intros [-> _]].
  - apply Z.leb_gt in Hcap. split; [done|]. intros (_ & ? & _). lia.
Qed.
